(** * URL shortener: the request handlers of [server.js] over two JSON files

    The service keeps two JSON documents on disk, [data/api-keys.json] and
    [data/urls.json], each a mapping from an identifier to a record, and
    serves six routes that read, change and rewrite them.  This file embeds
    the server with key management ([jsonFileMiddleware], [apiKeyManager],
    [validateApiKey] and the six routes), with [generateShortUrl] and
    [isValidUrl] as [server.js] defines them, and proves the properties the
    specification states about them.  The gate and the key route of
    [server.js], the first version of the server, are embedded in the
    module [Basic], and the last part of the file proves further
    properties of the routes of both versions.

    What the handlers get from Node.js is modelled as follows.
    - JavaScript values: records hold strings, booleans, [null] and
      [undefined]; an object is a finite map from property names to values,
      and a property that is absent from the object is looked up in
      [Object.prototype], among the properties it has from the start and
      those that requests have put on it.  The data files hold mappings
      from identifiers to such records, the request bodies hold such
      values.
    - The file system, the system clock, the random generator and the
      properties that requests have put on built-in objects form the
      [World] that every handler transforms.
    - [JSON.stringify]/[JSON.parse], [Date.prototype.toISOString], the date
      parser, the host's time zone, the code units of a string, and the
      Unicode and IPv6 parts of the URL host parser are an interface,
      [Runtime]. *)

From Stdlib Require Import ZArith.
From Stdlib.Strings Require Import Ascii String Byte.
From stdpp Require Import gmap strings list fin_maps pretty.

Open Scope string_scope.
Open Scope Z_scope.

(** ** JavaScript values *)

(** The values a record field, a body field or a parameter holds. *)
Inductive jsval :=
| VUndefined
| VNull
| VBool (b : bool)
| VStr (s : string).

#[global] Instance jsval_eq_dec : EqDecision jsval.
Proof. solve_decision. Defined.

(** An object: its own properties. *)
Abbreviation obj := (gmap string jsval).

(** A document: what a data file holds, identifier to record. *)
Abbreviation document := (gmap string obj).

(** [ToBoolean]: what [!v], [v || w] and [if (v)] test. *)
Definition truthy (v : jsval) : bool :=
  match v with
  | VUndefined | VNull => false
  | VBool b => b
  | VStr s => negb (String.eqb s "")
  end.

(** [v || w] *)
Definition js_or (v w : jsval) : jsval := if truthy v then v else w.

(** [v === w] on the values above: same type and same value. *)
Definition strict_eq (v w : jsval) : bool := bool_decide (v = w).

(** [String(v)], as [new URL(v)] converts its argument. *)
Definition ToString (v : jsval) : string :=
  match v with
  | VUndefined => "undefined"
  | VNull => "null"
  | VBool true => "true"
  | VBool false => "false"
  | VStr s => s
  end.

(** What [JSON.stringify] writes of an object: a property whose value is
    [undefined] is left out. *)
Definition jsonify_obj (o : obj) : obj := filter (λ kv, kv.2 ≠ VUndefined) o.
Definition jsonify (d : document) : document := jsonify_obj <$> d.

(** ** The runtime interface *)

Class Runtime := {
  (** the text of a file *)
  text : Type;
  (** [JSON.stringify(d, null, 2)] and [JSON.parse]; [None] is a
      [SyntaxError] *)
  JSON_stringify : document → text;
  JSON_parse : text → option document;
  JSON_parse_stringify : ∀ d, JSON_parse (JSON_stringify d) = Some (jsonify d);
(** a parsed document holds no [undefined] *)
JSON_parse_defined : ∀ data d, JSON_parse data = Some d → jsonify d = d;
  (** [new Date(t).toISOString()] for a time value [t], milliseconds since
      the epoch; the clock reads valid time values, far from the ends of
      the range where [toISOString] throws *)
  toISOString : Z → string;
  (** the time value of [new Date(s)] for a string [s]; [None] is an
      invalid date, whose time value is [NaN] *)
  Date_parse : string → option Z;
  (** ECMAScript's [LocalTime(t)] and [UTC(t)] for the host's time zone *)
  LocalTime : Z → Z;
  UTC : Z → Z;
  (** the own enumerable properties of a string, which [{...s}] copies:
      its UTF-16 code units, each under its index *)
  String_entries : string → obj;
  (** the URL host parser on input it does not treat as plain ASCII:
      Unicode ToASCII of a domain, and the IPv6 parser; [None] and [false]
      are failure *)
  unicode_ToASCII : string → option string;
  ipv6_parse : string → bool
}.

(** ** The world and the handlers' monad *)

(** A path of the file system that is not free: a file with its text, or
    something every access of which fails with the error code given (a
    directory, a file without permission, a path under a missing
    directory). *)
Inductive node `{Runtime} :=
| File (data : text)
| Fault (code : string).

Record World `{Runtime} := {
  fs : gmap string node;
  (** the properties requests have put on built-in objects, by the name
      under which [Object.prototype] leads to the object; the name
      [__proto__] is [Object.prototype] itself *)
  builtins : gmap string obj;
  (** the readings of the system clock, and how many were taken *)
  clock : nat → Z;
  ticks : nat;
  (** the bytes of the random generator, and how many were drawn *)
  entropy : nat → byte;
  drawn : nat
}.

(** What a [catch] receives. A system error carries a [code]; a
    [SyntaxError] has none. *)
Inductive exn :=
| SystemError (code : string)
| SyntaxError.

Definition exn_code (e : exn) : option string :=
  match e with
  | SystemError c => Some c
  | SyntaxError => None
  end.

Inductive outcome (A : Type) :=
| Ok (a : A)
| Throw (e : exn).
Arguments Ok {A} a.
Arguments Throw {A} e.

Section Monad.
Context `{Runtime}.

Definition M (A : Type) : Type := World → outcome A * World.

Definition ret {A} (a : A) : M A := λ w, (Ok a, w).
Definition throw {A} (e : exn) : M A := λ w, (Throw e, w).
Definition bind {A B} (m : M A) (k : A → M B) : M B :=
  λ w, match m w with
       | (Ok a, w') => k a w'
       | (Throw e, w') => (Throw e, w')
       end.
(** [try { m } catch (e) { h e }] *)
Definition try_catch {A} (m : M A) (h : exn → M A) : M A :=
  λ w, match m w with
       | (Ok a, w') => (Ok a, w')
       | (Throw e, w') => h e w'
       end.
End Monad.

(** The handlers are written with stdpp's notation for monads:
    [x ← m; k] awaits [m] and goes on with [k]. *)
#[global] Instance M_ret `{Runtime} : MRet M := @ret _.
#[global] Instance M_bind `{Runtime} : MBind M := λ A B k m, bind m k.

Section Store.
Context `{Runtime}.

Definition set_fs (f : gmap string node) (w : World) : World :=
  {| fs := f; builtins := builtins w; clock := clock w; ticks := ticks w;
     entropy := entropy w; drawn := drawn w |}.
Definition set_builtins (b : gmap string obj) (w : World) : World :=
  {| fs := fs w; builtins := b; clock := clock w; ticks := ticks w;
     entropy := entropy w; drawn := drawn w |}.
Definition set_ticks (n : nat) (w : World) : World :=
  {| fs := fs w; builtins := builtins w; clock := clock w; ticks := n;
     entropy := entropy w; drawn := drawn w |}.
Definition set_drawn (n : nat) (w : World) : World :=
  {| fs := fs w; builtins := builtins w; clock := clock w; ticks := ticks w;
     entropy := entropy w; drawn := n |}.

(** [fs.readFile(path, 'utf8')] *)
Definition readFile (path : string) : M text :=
  λ w, match fs w !! path with
       | None => (Throw (SystemError "ENOENT"), w)
       | Some (Fault c) => (Throw (SystemError c), w)
       | Some (File data) => (Ok data, w)
       end.

(** [fs.writeFile(path, data)] *)
Definition writeFile (path : string) (data : text) : M unit :=
  λ w, match fs w !! path with
       | Some (Fault c) => (Throw (SystemError c), w)
       | _ => (Ok tt, set_fs (<[path := File data]> (fs w)) w)
       end.

(** [JSON.parse(data)] *)
Definition parse (data : text) : M document :=
  match JSON_parse data with
  | Some d => ret d
  | None => throw SyntaxError
  end.

(** [jsonFileMiddleware.readJSON] *)
Definition readJSON (filePath : string) : M document :=
  try_catch
    (data ← readFile filePath; parse data)
    (λ error, if bool_decide (exn_code error = Some "ENOENT")
              then ret ∅
              else throw error).

(** [jsonFileMiddleware.writeJSON] *)
Definition writeJSON (filePath : string) (data : document) : M unit :=
  writeFile filePath (JSON_stringify data).
End Store.

(** ** Clock, randomness, hexadecimal *)

Section Effects.
Context `{Runtime}.

(** The time value of [new Date()]: the next reading of the clock. *)
Definition new_Date : M Z :=
  λ w, (Ok (clock w (ticks w)), set_ticks (S (ticks w)) w).

(** [crypto.randomBytes(n)]: the next [n] bytes of the generator. *)
Definition randomBytes (n : nat) : M (list byte) :=
  λ w, (Ok (entropy w <$> seq (drawn w) n), set_drawn (drawn w + n)%nat w).
End Effects.

(** [buffer.toString('hex')]: two lower-case digits for each byte. *)
Definition hex_digit (n : N) : ascii :=
  if (n <? 10)%N then ascii_of_N (48 + n) else ascii_of_N (87 + n).

Definition hex_of_byte (b : byte) : string :=
  let n := Byte.to_N b in
  String (hex_digit (n / 16)) (String (hex_digit (n mod 16)) "").

Fixpoint hex (bs : list byte) : string :=
  match bs with
  | [] => ""
  | b :: bs => hex_of_byte b +:+ hex bs
  end.

(** ** Dates *)

Definition msPerDay : Z := 86400000.

Section Dates.
Context `{Runtime}.

(** The time value of [new Date(v)]: a string is parsed, [undefined]
    gives an invalid date, [null] and booleans are converted to numbers. *)
Definition Date_value (v : jsval) : option Z :=
  match v with
  | VUndefined => None
  | VNull => Some 0
  | VBool b => Some (if b then 1 else 0)
  | VStr s => Date_parse s
  end.

(** [d < new Date(now)] for a date [d]: the time values are compared, and
    a comparison with [NaN] is false. *)
Definition Date_lt (d : option Z) (now : Z) : bool :=
  match d with
  | Some t => t <? now
  | None => false
  end.

(** [date.setDate(date.getDate() + n)] on the time value [t]. ECMAScript
    takes the local time [LocalTime(t)], keeps its year, month and time
    within the day, replaces the day of the month [dt] by [dt + n]
    ([MakeDay], which counts days from the first of the month, so that the
    day number grows by [n]), and converts the result back with [UTC]. *)
Definition setDate_getDate_plus (t : Z) (n : Z) : Z :=
  UTC (LocalTime t + n * msPerDay).
End Dates.

(** ** Property access *)

(** The names every object inherits from [Object.prototype]. *)
Definition Object_prototype_names : list string :=
  [ "constructor"; "__defineGetter__"; "__defineSetter__"; "hasOwnProperty";
    "__lookupGetter__"; "__lookupSetter__"; "isPrototypeOf";
    "propertyIsEnumerable"; "toString"; "valueOf"; "__proto__";
    "toLocaleString" ].

(** What [doc[k]] evaluates to when it is truthy: the record that the
    document holds at [k]; or else, inherited from [Object.prototype], a
    string or a boolean that a request has put there under the name [k],
    or the built-in object that [Object.prototype] has at [k] from the
    start (a function, or [Object.prototype] itself for [__proto__]).
    Records and built-in objects are objects, hence truthy. *)
Inductive ref :=
| Own (k : string)
| Builtin (k : string)
| Inherited (v : jsval).

(** [doc[k]] as the handlers use it, which all test it with [!] first:
    [None] is a falsy value, [undefined] or a falsy value that a request
    has put on [Object.prototype] under the name [k]. [proto] holds the
    properties that requests have put on [Object.prototype]; the routes
    put none under a name that it has from the start. *)
Definition index (proto : obj) (doc : document) (k : string) : option ref :=
  match doc !! k with
  | Some _ => Some (Own k)
  | None =>
      match proto !! k with
      | Some v => if truthy v then Some (Inherited v) else None
      | None => if bool_decide (k ∈ Object_prototype_names)
                then Some (Builtin k) else None
      end
  end.

(** [o.p] for an object with own properties [o] whose prototype chain ends
    in [Object.prototype], with properties [proto] put on the latter. The
    handlers read no property that a built-in object, a string or a
    boolean has of its own. *)
Definition lookup_chain (proto o : obj) (p : string) : jsval :=
  match o !! p with
  | Some v => v
  | None => default VUndefined (proto !! p)
  end.

Section Properties.
Context `{Runtime}.

Definition builtin_props (k : string) : M obj :=
  λ w, (Ok (default ∅ (builtins w !! k)), w).

Definition Object_prototype : M obj := builtin_props "__proto__".

(** [o.p] for an object literal or a parsed object [o] *)
Definition get (o : obj) (p : string) : M jsval :=
  proto ← Object_prototype; mret (lookup_chain proto o p).

(** [doc[k]], with the properties of [Object.prototype] as they are when
    it is evaluated. A handler that evaluates [doc[k]] again after it has
    set a property of it finds the same thing: the assignments of the
    routes change neither the names of the document nor, under the name
    [k], [Object.prototype]. *)
Definition item (doc : document) (k : string) : M (option ref) :=
  proto ← Object_prototype; mret (index proto doc k).

(** the own enumerable properties of [doc[k]], as [{...doc[k]}] copies
    them: of a built-in object those that requests have put on it, of a
    string its code units, of a boolean none *)
Definition deref (doc : document) (r : ref) : M obj :=
  match r with
  | Own k => mret (default ∅ (doc !! k))
  | Builtin k => builtin_props k
  | Inherited (VStr s) => mret (String_entries s)
  | Inherited _ => mret ∅
  end.

(** the own properties of [doc[k]] among which [doc[k].p] is looked up,
    for the names [p] that the handlers read: a string or a boolean has
    none of them *)
Definition readable (doc : document) (r : ref) : M obj :=
  match r with
  | Inherited _ => mret ∅
  | _ => deref doc r
  end.

(** [doc[k].p] *)
Definition get_prop (doc : document) (r : ref) (p : string) : M jsval :=
  o ← readable doc r; get o p.

(** [doc[k].p = v]: on a record of the document it changes the document
    in memory; on a built-in object it changes the object, which outlives
    the request; on a string or a boolean it does nothing (the file is
    not in strict mode, where it would throw). *)
Definition set_prop (doc : document) (r : ref) (p : string) (v : jsval)
  : M document :=
  match r with
  | Own k => mret (alter (<[p := v]>) k doc)
  | Builtin k =>
      λ w, (Ok doc,
            set_builtins
              (<[k := <[p := v]> (default ∅ (builtins w !! k))]> (builtins w))
              w)
  | Inherited _ => mret doc
  end.
End Properties.

(** ** Requests and responses *)

Record request := {
  (** [req.headers['x-api-key']] *)
  x_api_key : option string;
  (** [req.body], the parsed JSON body ([{}] when there is none) *)
  body : obj;
  (** [req.protocol] and [req.get('host')] *)
  protocol : string;
  host : jsval
}.

(** A request that passed [validateApiKey], with [req.userId] and
    [req.apiKey] as the middleware set them. *)
Record authenticated := {
  req : request;
  userId : jsval;
  apiKey : string
}.

(** The argument of [res.json]: an object or an array of objects.
    [res.json] sends its [JSON.stringify], which leaves out the properties
    whose value is [undefined]. *)
Inductive payload :=
| Object (o : obj)
| Array (l : list obj).

Inductive response :=
| Json (status : Z) (b : payload)   (* [res.status(s).json(b)] *)
| Redirect (url : jsval).           (* [res.redirect(url)] *)

#[global] Instance exn_eq_dec : EqDecision exn.
Proof. solve_decision. Defined.
#[global] Instance outcome_eq_dec `{EqDecision A} : EqDecision (outcome A).
Proof. solve_decision. Defined.
#[global] Instance request_eq_dec : EqDecision request.
Proof. solve_decision. Defined.
#[global] Instance authenticated_eq_dec : EqDecision authenticated.
Proof. solve_decision. Defined.
#[global] Instance payload_eq_dec : EqDecision payload.
Proof. solve_decision. Defined.
#[global] Instance response_eq_dec : EqDecision response.
Proof. solve_decision. Defined.

(** [res.status(s).json({ error: msg })] *)
Definition error (status : Z) (msg : string) : response :=
  Json status (Object {[ "error" := VStr msg ]}).

(** ** [new URL(input)]

    The URL parser of the WHATWG URL Standard, as Node.js runs it for
    [new URL(input)]: no base URL, no state override. Of the URL record we
    keep the scheme and the host; credentials, port, path, query and
    fragment are parsed for their failures only, and the states after the
    host and port (path start, path, query, fragment, opaque path) never
    fail. A string stands for its UTF-8 bytes; every code point the parser
    tests is ASCII. *)
Module URL.
Open Scope char_scope.
Open Scope N_scope.

Implicit Types (c : ascii) (l : list ascii).

Definition in_range (lo hi : N) c : bool :=
  let n := N_of_ascii c in (lo <=? n) && (n <=? hi).

Definition is_upper_alpha c := in_range 65 90 c.
Definition is_alpha c := is_upper_alpha c || in_range 97 122 c.
Definition is_digit c := in_range 48 57 c.
Definition is_alphanumeric c := is_alpha c || is_digit c.
Definition is_hex_digit c := is_digit c || in_range 65 70 c || in_range 97 102 c.
Definition is_octal_digit c := in_range 48 55 c.
Definition is_ascii c := in_range 0 127 c.
Definition is_C0_control_or_space c := in_range 0 32 c.
Definition is_tab_or_newline c : bool :=
  bool_decide (N_of_ascii c ∈ [9; 10; 13]).
Definition to_lower c :=
  if is_upper_alpha c then ascii_of_N (N_of_ascii c + 32) else c.

Definition is_forbidden_host_code_point c : bool :=
  bool_decide (N_of_ascii c ∈ [0; 9; 10; 13; 32; 35; 47; 58; 60; 62; 63; 64;
                               91; 92; 93; 94; 124]).
Definition is_forbidden_domain_code_point c : bool :=
  is_forbidden_host_code_point c || in_range 0 31 c || (c =? "%")%char
  || (N_of_ascii c =? 127).

Fixpoint drop_leading (P : ascii → bool) l : list ascii :=
  match l with
  | c :: l' => if P c then drop_leading P l' else l
  | [] => []
  end.

(** strictly split on the delimiter [d] *)
Fixpoint split_on (d : ascii) l : list (list ascii) :=
  match l with
  | [] => [[]]
  | c :: l' =>
      if (c =? d)%char then [] :: split_on d l'
      else match split_on d l' with
           | part :: parts => (c :: part) :: parts
           | [] => [[c]]
           end
  end.

(** the value of a digit in radix up to 16 *)
Definition digit_value c : N :=
  let n := N_of_ascii c in
  if is_digit c then n - 48
  else if in_range 65 70 c then n - 55
  else n - 87.

Definition number_of (radix : N) l : N :=
  fold_left (λ acc c, acc * radix + digit_value c) l 0.

(** The hosts the parser distinguishes. *)
Inductive host :=
| Domain (name : string)
| IPv4 (address : N)
| IPv6 (literal : string)
| OpaqueHost (name : string)
| EmptyHost.

Record record := {
  scheme : string;
  url_host : option host     (* [None] is the null host *)
}.

Definition special_schemes : list string :=
  ["ftp"; "file"; "http"; "https"; "ws"; "wss"]%string.

Definition is_special (scheme : string) : bool :=
  bool_decide (scheme ∈ special_schemes).

(** *** Host parsing *)

(** IPv4 number parser; [None] is failure. *)
Definition parse_IPv4_number l : option N :=
  match l with
  | [] => None
  | "0" :: x :: l' =>
      if (x =? "x")%char || (x =? "X")%char then
        if forallb is_hex_digit l' then Some (number_of 16 l') else None
      else
        if forallb is_octal_digit (x :: l') then Some (number_of 8 (x :: l'))
        else None
  | _ => if forallb is_digit l then Some (number_of 10 l) else None
  end.

(** the parts of a domain, without the empty one a trailing dot leaves *)
Definition ends_in_a_number l : bool :=
  let parts := split_on "." l in
  let parts := match last parts with
               | Some [] => if (length parts =? 1)%nat then parts
                            else removelast parts
               | _ => parts
               end in
  match last parts with
  | Some [] => false
  | Some part =>
      if forallb is_digit part then true
      else bool_decide (is_Some (parse_IPv4_number part))
  | None => false
  end.

Definition parse_IPv4 l : option N :=
  let parts := split_on "." l in
  let parts := match last parts with
               | Some [] => if (1 <? length parts)%nat then removelast parts
                            else parts
               | _ => parts
               end in
  if (4 <? length parts)%nat then None
  else
    numbers ← mapM parse_IPv4_number parts;
    match last numbers with
    | None => None
    | Some final =>
        if forallb (λ n, n <=? 255) (removelast numbers)
           && (final <? 256 ^ (5 - N.of_nat (length numbers)))
        then Some (final + foldr N.add 0
                             (imap (λ i n, n * 256 ^ (3 - N.of_nat i))
                                   (removelast numbers)))
        else None
    end.

(** percent-decode: [%] followed by two hexadecimal digits is the byte
    they denote; [skip] counts the digits still to pass over *)
Fixpoint percent_decode_from (skip : nat) l : list ascii :=
  match l with
  | [] => []
  | c :: l' =>
      match skip with
      | S k => percent_decode_from k l'
      | O =>
          match l' with
          | h1 :: h2 :: _ =>
              if (c =? "%")%char && is_hex_digit h1 && is_hex_digit h2
              then ascii_of_N (digit_value h1 * 16 + digit_value h2)
                     :: percent_decode_from 2 l'
              else c :: percent_decode_from 0 l'
          | _ => c :: percent_decode_from 0 l'
          end
      end
  end.
Definition percent_decode l : list ascii := percent_decode_from 0 l.

Section Parser.
Context `{Runtime}.

Definition starts_with_xn l : bool :=
  match l with
  | x :: n :: d1 :: d2 :: _ =>
      (to_lower x =? "x")%char && (to_lower n =? "n")%char
      && (d1 =? "-")%char && (d2 =? "-")%char
  | _ => false
  end.

(** domain to ASCII, not strict. On an ASCII domain without a label
    that starts with [xn--], Unicode ToASCII is ASCII lower-casing (so
    the standard notes); otherwise it is the runtime's. *)
Definition domain_to_ASCII (domain : list ascii) : option (list ascii) :=
  result ← (if forallb is_ascii domain
               && negb (existsb starts_with_xn (split_on "." domain))
            then Some (to_lower <$> domain)
            else list_ascii_of_string
                   <$> unicode_ToASCII (string_of_list_ascii domain));
  if bool_decide (result = [])
     || existsb is_forbidden_domain_code_point result
  then None else Some result.

(** opaque-host parser; the name is kept before its percent-encoding *)
Definition parse_opaque_host l : option host :=
  if existsb is_forbidden_host_code_point l then None
  else Some (OpaqueHost (string_of_list_ascii l)).

(** host parser *)
Definition parse_host l (isOpaque : bool) : option host :=
  match l with
  | "[" :: l' =>
      match last l with
      | Some "]" =>
          let literal := string_of_list_ascii (removelast l') in
          if ipv6_parse literal then Some (IPv6 literal) else None
      | _ => None
      end
  | _ =>
      if isOpaque then parse_opaque_host l
      else
        asciiDomain ← domain_to_ASCII (percent_decode l);
        if ends_in_a_number asciiDomain
        then IPv4 <$> parse_IPv4 asciiDomain
        else Some (Domain (string_of_list_ascii asciiDomain))
  end.

(** *** The states *)

(** scheme state, after the first letter: the scheme and what follows
    its colon. Without a colon the parser starts over in the no scheme
    state, which fails when there is no base URL. *)
Fixpoint scheme_state (buffer l : list ascii)
  : option (list ascii * list ascii) :=
  match l with
  | [] => None
  | c :: l' =>
      if is_alphanumeric c || (c =? "+")%char || (c =? "-")%char
         || (c =? ".")%char
      then scheme_state (buffer ++ [to_lower c]) l'
      else if (c =? ":")%char then Some (buffer, l')
      else None
  end.

(** the code points that end the authority, besides the end of input *)
Definition ends_authority (special : bool) c : bool :=
  (c =? "/")%char || (c =? "?")%char || (c =? "#")%char
  || (special && (c =? "\")%char).

(** authority state: the buffer it leaves for the host state, which is
    what follows the last [@] up to the end of the authority *)
Fixpoint authority_state (special atSignSeen : bool) (buffer l : list ascii)
  : option (list ascii) :=
  match l with
  | c :: l' =>
      if (c =? "@")%char then authority_state special true [] l'
      else if ends_authority special c
      then if atSignSeen && bool_decide (buffer = []) then None
           else Some buffer
      else authority_state special atSignSeen (buffer ++ [c]) l'
  | [] => if atSignSeen && bool_decide (buffer = []) then None
          else Some buffer
  end.

(** port state, on what follows the colon up to the end of the
    authority: digits only, and a port of at most 65535 *)
Definition port_state l : bool :=
  forallb is_digit l && (number_of 10 l <=? 65535).

(** host state, on the buffer the authority state left *)
Fixpoint host_state (special insideBrackets : bool) (buffer l : list ascii)
  : option host :=
  match l with
  | c :: l' =>
      if (c =? ":")%char && negb insideBrackets then
        if bool_decide (buffer = []) then None
        else
          h ← parse_host buffer (negb special);
          if port_state l' then Some h else None
      else
        host_state special
          (if (c =? "[")%char then true
           else if (c =? "]")%char then false else insideBrackets)
          (buffer ++ [c]) l'
  | [] =>
      if special && bool_decide (buffer = []) then None
      else parse_host buffer (negb special)
  end.

Definition is_slash c : bool := (c =? "/")%char || (c =? "\")%char.

Fixpoint take_until (P : ascii → bool) l : list ascii :=
  match l with
  | c :: l' => if P c then [] else c :: take_until P l'
  | [] => []
  end.

Definition is_Windows_drive_letter l : bool :=
  match l with
  | [c; d] => is_alpha c && ((d =? ":")%char || (d =? "|")%char)
  | _ => false
  end.

(** file host state *)
Definition file_host_state l : option host :=
  let buffer :=
    take_until (λ c, is_slash c || (c =? "?")%char || (c =? "#")%char) l in
  if is_Windows_drive_letter buffer then Some EmptyHost
  else if bool_decide (buffer = []) then Some EmptyHost
  else
    h ← parse_host buffer false;
    Some (match h with
          | Domain "localhost" => EmptyHost
          | _ => h
          end).

(** file state and file slash state *)
Definition file_state l : option host :=
  match l with
  | c :: d :: l' =>
      if is_slash c && is_slash d then file_host_state l'
      else Some EmptyHost
  | _ => Some EmptyHost
  end.

(** what follows the scheme and its colon *)
Definition after_scheme (buffer l : list ascii) : option record :=
  let scheme := string_of_list_ascii buffer in
  if bool_decide (scheme = "file"%string) then
    h ← file_state l;
    Some {| scheme := scheme; url_host := Some h |}
  else if is_special scheme then
    (* special authority slashes, special authority ignore slashes *)
    buffer ← authority_state true false [] (drop_leading is_slash l);
    h ← host_state true false [] buffer;
    Some {| scheme := scheme; url_host := Some h |}
  else
    match l with
    | "/" :: "/" :: l' =>
        (* path or authority state, then authority state *)
        buffer ← authority_state false false [] l';
        h ← host_state false false [] buffer;
        Some {| scheme := scheme; url_host := Some h |}
    | _ =>
        (* path state or opaque path state: the host stays null *)
        Some {| scheme := scheme; url_host := None |}
    end.

(** the input without leading and trailing C0 controls and spaces, and
    without tabs and newlines *)
Definition clean l : list ascii :=
  let l := drop_leading is_C0_control_or_space l in
  let l := reverse (drop_leading is_C0_control_or_space (reverse l)) in
  List.filter (λ c, negb (is_tab_or_newline c)) l.

(** [new URL(input)]; [None] when it throws *)
Definition parse (input : string) : option record :=
  match clean (list_ascii_of_string input) with
  | c :: l =>
      (* scheme start state *)
      if is_alpha c then
        '(buffer, rest) ← scheme_state [to_lower c] l;
        after_scheme buffer rest
      else None
  | [] => None
  end.
End Parser.
End URL.

(** ** The server *)

Definition API_KEYS_FILE : string := "data/api-keys.json".
Definition URLS_FILE : string := "data/urls.json".

Definition API_KEY_EXPIRATION_DAYS : Z := 30.
Definition MAX_KEYS_PER_USER : nat := 5.

(** What [validateApiKey] does with a request: it responds, or it calls
    [next()] on the request with [userId] and [apiKey] set. *)
Inductive gate :=
| Responded (r : response)
| Next (a : authenticated).

#[global] Instance gate_eq_dec : EqDecision gate.
Proof. solve_decision. Defined.

Section Server.
Context `{Runtime}.

(** *** [apiKeyManager] *)

Definition generateApiKey : M string :=
  bytes ← randomBytes 16; mret (hex bytes).

Definition isKeyExpired (apiKeys : document) (keyData : ref) : M bool :=
  expiresAt ← get_prop apiKeys keyData "expiresAt";
  now ← new_Date;
  mret (Date_lt (Date_value expiresAt) now).

Definition countUserKeys (userId : jsval) : M nat :=
  apiKeys ← readJSON API_KEYS_FILE;
  proto ← Object_prototype;
  mret (length (List.filter
                  (λ key, strict_eq (lookup_chain proto key "userId") userId)
                  (map_to_list apiKeys).*2)).

Definition getExpirationDate : M string :=
  date ← new_Date;
  mret (toISOString (setDate_getDate_plus date API_KEY_EXPIRATION_DAYS)).

(** *** [generateShortUrl] and [isValidUrl] *)

Definition generateShortUrl : M string :=
  bytes ← randomBytes 4; mret (hex bytes).

Definition isValidUrl (string : jsval) : bool :=
  match URL.parse (ToString string) with
  | Some _ => true
  | None => false
  end.

(** *** [validateApiKey] *)

Definition validateApiKey (req : request) : M gate :=
  match x_api_key req with
  | None => mret (Responded (error 401 "API key is required"))
  | Some apiKey =>
      if negb (truthy (VStr apiKey))
      then mret (Responded (error 401 "API key is required"))
      else
        try_catch
          (apiKeys ← readJSON API_KEYS_FILE;
           keyData ← item apiKeys apiKey;
           match keyData with
           | None => mret (Responded (error 401 "Invalid API key"))
           | Some keyData =>
               revoked ← get_prop apiKeys keyData "revoked";
               if truthy revoked
               then mret (Responded (error 401 "API key has been revoked"))
               else
                 expired ← isKeyExpired apiKeys keyData;
                 if expired : bool
                 then mret (Responded (error 401 "API key has expired"))
                 else
                   now ← new_Date;
                   apiKeys ← set_prop apiKeys keyData "lastUsed"
                               (VStr (toISOString now));
                   writeJSON API_KEYS_FILE apiKeys;;
                   userId ← get_prop apiKeys keyData "userId";
                   mret (Next {| req := req; userId := userId;
                                 apiKey := apiKey |})
           end)
          (λ _, mret (Responded (error 500 "Internal server error")))
  end.

(** *** The routes *)

(** [POST /api/keys] *)
Definition post_api_keys (req : request) : M response :=
  try_catch
    (bodyUserId ← get (body req) "userId";
     userId ← (if truthy bodyUserId then mret bodyUserId
               else bytes ← randomBytes 8; mret (VStr (hex bytes)));
     keyCount ← countUserKeys userId;
     if bool_decide (MAX_KEYS_PER_USER ≤ keyCount)%nat
     then mret (error 400
            "Maximum number of API keys (5) reached for this user")
     else
       apiKey ← generateApiKey;
       apiKeys ← readJSON API_KEYS_FILE;
       createdAt ← new_Date;
       expiresAt ← getExpirationDate;
       description ← get (body req) "description";
       let apiKeys :=
         <[apiKey := {[ "userId" := userId;
                        "createdAt" := VStr (toISOString createdAt);
                        "expiresAt" := VStr expiresAt;
                        "lastUsed" := VNull;
                        "revoked" := VBool false;
                        "description" := js_or description VNull ]}]>
           apiKeys in
       writeJSON API_KEYS_FILE apiKeys;;
       expiresAt ← get_prop apiKeys (Own apiKey) "expiresAt";
       mret (Json 200 (Object {[ "apiKey" := VStr apiKey;
                                 "userId" := userId;
                                 "expiresAt" := expiresAt ]})))
    (λ _, mret (error 500 "Error generating API key")).

(** [GET /api/keys/:userId]. The array has the entries in the order of
    the keys in the file, which a document, as a map, does not keep: of the
    list here, only the elements count, not their order. *)
Definition get_api_keys (userId : string) : M response :=
  try_catch
    (apiKeys ← readJSON API_KEYS_FILE;
     proto ← Object_prototype;
     let userKeys :=
       (λ entry, entry.2 ∪ {[ "apiKey" := VStr entry.1 ]})
         <$> List.filter
               (λ entry, strict_eq (lookup_chain proto entry.2 "userId")
                                   (VStr userId))
               (map_to_list apiKeys) in
     mret (Json 200 (Array userKeys)))
    (λ _, mret (error 500 "Error retrieving API keys")).

(** [DELETE /api/keys/:apiKey] *)
Definition delete_api_keys (apiKey : string) : M response :=
  try_catch
    (apiKeys ← readJSON API_KEYS_FILE;
     keyData ← item apiKeys apiKey;
     match keyData with
     | None => mret (error 404 "API key not found")
     | Some keyData =>
         apiKeys ← set_prop apiKeys keyData "revoked" (VBool true);
         now ← new_Date;
         apiKeys ← set_prop apiKeys keyData "revokedAt"
                     (VStr (toISOString now));
         writeJSON API_KEYS_FILE apiKeys;;
         mret (Json 200 (Object
                 {[ "message" := VStr "API key revoked successfully" ]}))
     end)
    (λ _, mret (error 500 "Error revoking API key")).

(** [PATCH /api/keys/:apiKey] *)
Definition patch_api_keys (apiKey : string) (req : request) : M response :=
  try_catch
    (description ← get (body req) "description";
     apiKeys ← readJSON API_KEYS_FILE;
     keyData ← item apiKeys apiKey;
     match keyData with
     | None => mret (error 404 "API key not found")
     | Some keyData =>
         apiKeys ← set_prop apiKeys keyData "description" description;
         now ← new_Date;
         apiKeys ← set_prop apiKeys keyData "updatedAt"
                     (VStr (toISOString now));
         writeJSON API_KEYS_FILE apiKeys;;
         data ← deref apiKeys keyData;
         mret (Json 200 (Object (data ∪ {[ "apiKey" := VStr apiKey ]})))
     end)
    (λ _, mret (error 500 "Error updating API key")).

(** [POST /api/shorten], after [validateApiKey] *)
Definition shorten (a : authenticated) : M response :=
  url ← get (body (req a)) "url";
  if negb (truthy url) || negb (isValidUrl url)
  then mret (error 400 "Invalid URL provided")
  else
    try_catch
      (urls ← readJSON URLS_FILE;
       shortUrl ← generateShortUrl;
       createdAt ← new_Date;
       let urls :=
         <[shortUrl := {[ "originalUrl" := url;
                          "userId" := userId a;
                          "createdAt" := VStr (toISOString createdAt) ]}]>
           urls in
       writeJSON URLS_FILE urls;;
       mret (Json 200 (Object
               {[ "shortUrl" := VStr (protocol (req a) +:+ "://"
                                      +:+ ToString (host (req a)) +:+ "/"
                                      +:+ shortUrl);
                  "originalUrl" := url ]})))
      (λ _, mret (error 500 "Error shortening URL")).

(** [POST /api/shorten]: the middleware, then the handler *)
Definition post_api_shorten (req : request) : M response :=
  g ← validateApiKey req;
  match g with
  | Responded r => mret r
  | Next a => shorten a
  end.

(** [GET /:shortUrl] *)
Definition get_shortUrl (shortUrl : string) : M response :=
  try_catch
    (urls ← readJSON URLS_FILE;
     record ← item urls shortUrl;
     match record with
     | None => mret (error 404 "Short URL not found")
     | Some record =>
         originalUrl ← get_prop urls record "originalUrl";
         mret (Redirect originalUrl)
     end)
    (λ _, mret (error 500 "Error redirecting to URL")).
End Server.

(** ** The first version of the server

    [server.js] has the gate and the key route in their first form: a key
    is a record of its user and its creation time, without expiry or
    revocation, and every request for a key gets one. Its
    [jsonFileMiddleware], its handler of [POST /api/shorten] and its route
    [GET /:shortUrl] are the text of the later version. *)
Module Basic.

(** What this gate hands on: the request with [req.userId] set. *)
Inductive gate :=
| Responded (r : response)
| Next (req : request) (userId : jsval).

Section Server.
Context `{Runtime}.

(** [validateApiKey] *)
Definition validateApiKey (req : request) : M gate :=
  match x_api_key req with
  | None => mret (Responded (error 401 "API key is required"))
  | Some apiKey =>
      if negb (truthy (VStr apiKey))
      then mret (Responded (error 401 "API key is required"))
      else
        try_catch
          (apiKeys ← readJSON API_KEYS_FILE;
           keyData ← item apiKeys apiKey;
           match keyData with
           | None => mret (Responded (error 401 "Invalid API key"))
           | Some keyData =>
               userId ← get_prop apiKeys keyData "userId";
               mret (Next req userId)
           end)
          (λ _, mret (Responded (error 500 "Internal server error")))
  end.

(** [POST /api/keys] *)
Definition post_api_keys : M response :=
  try_catch
    (bytes ← randomBytes 16;
     let apiKey := hex bytes in
     bytes ← randomBytes 8;
     let userId := hex bytes in
     apiKeys ← readJSON API_KEYS_FILE;
     createdAt ← new_Date;
     let apiKeys :=
       <[apiKey := {[ "userId" := VStr userId;
                      "createdAt" := VStr (toISOString createdAt) ]}]>
         apiKeys in
     writeJSON API_KEYS_FILE apiKeys;;
     mret (Json 200 (Object {[ "apiKey" := VStr apiKey;
                               "userId" := VStr userId ]})))
    (λ _, mret (error 500 "Error generating API key")).

(** [POST /api/shorten], after [validateApiKey] *)
Definition shorten (req : request) (userId : jsval) : M response :=
  url ← get (body req) "url";
  if negb (truthy url) || negb (isValidUrl url)
  then mret (error 400 "Invalid URL provided")
  else
    try_catch
      (urls ← readJSON URLS_FILE;
       shortUrl ← generateShortUrl;
       createdAt ← new_Date;
       let urls :=
         <[shortUrl := {[ "originalUrl" := url;
                          "userId" := userId;
                          "createdAt" := VStr (toISOString createdAt) ]}]>
           urls in
       writeJSON URLS_FILE urls;;
       mret (Json 200 (Object
               {[ "shortUrl" := VStr (protocol req +:+ "://"
                                      +:+ ToString (host req) +:+ "/"
                                      +:+ shortUrl);
                  "originalUrl" := url ]})))
      (λ _, mret (error 500 "Error shortening URL")).

(** [POST /api/shorten]: the middleware, then the handler *)
Definition post_api_shorten (req : request) : M response :=
  g ← validateApiKey req;
  match g with
  | Responded r => mret r
  | Next req userId => shorten req userId
  end.
End Server.
End Basic.

#[global] Instance basic_gate_eq_dec : EqDecision Basic.gate.
Proof. solve_decision. Defined.

(** ** The operations of the specification *)

(** The routes by the names the specification gives the operations;
    [Validate] is the middleware alone, [Shorten] the whole route. *)
Inductive operation :=
| Create (req : request)
| List (userId : string)
| Revoke (apiKey : string)
| UpdateDescription (apiKey : string) (req : request)
| Validate (req : request)
| Shorten (req : request)
| Resolve (shortUrl : string).

(** What a data file holds for the handlers: the result of [readJSON]. *)
Definition store `{Runtime} (w : World) (filePath : string)
  : outcome document :=
(readJSON filePath w).1.

(** The properties requests have put on [Object.prototype]. *)
Definition prototype `{Runtime} (w : World) : obj :=
default ∅ (builtins w !! "__proto__").

(** The responses of the authorization gate, by the names of the
    specification. *)
Definition Unauthorized : response := error 401 "API key is required".
Definition InvalidKey : response := error 401 "Invalid API key".
Definition Revoked : response := error 401 "API key has been revoked".
Definition Expired : response := error 401 "API key has expired".

(** The world an operation leaves. *)
Definition perform `{Runtime} (op : operation) (w : World) : World :=
match op with
| Create req => (post_api_keys req w).2
| List userId => (get_api_keys userId w).2
| Revoke apiKey => (delete_api_keys apiKey w).2
| UpdateDescription apiKey req => (patch_api_keys apiKey req w).2
| Validate req => (validateApiKey req w).2
| Shorten req => (post_api_shorten req w).2
| Resolve shortUrl => (get_shortUrl shortUrl w).2
end.

(** ** A runtime to run the handlers on

    The text of a file is the document it holds, or nothing when the file
    is not JSON; the host is in UTC, and time values are written in ISO
    8601 as [toISOString] writes them and parsed back from that format;
    strings are ASCII, one code unit for each character; the host parser
    accepts no IPv6 literal and no Unicode domain. *)

(** the civil date of a day number, days since 1970-01-01 *)
Definition civil_from_days (z : Z) : Z * Z * Z :=
let z := z + 719468 in
let era := z / 146097 in
let doe := z - era * 146097 in
let yoe := (doe - doe / 1460 + doe / 36524 - doe / 146096) / 365 in
let doy := doe - (365 * yoe + yoe / 4 - yoe / 100) in
let mp := (5 * doy + 2) / 153 in
let d := doy - (153 * mp + 2) / 5 + 1 in
let m := if mp <? 10 then mp + 3 else mp - 9 in
(yoe + era * 400 + (if m <=? 2 then 1 else 0), m, d).

Definition days_from_civil (y m d : Z) : Z :=
let y := y - (if m <=? 2 then 1 else 0) in
let era := y / 400 in
let yoe := y - era * 400 in
let mp := (m + 9) mod 12 in
let doy := (153 * mp + 2) / 5 + d - 1 in
let doe := yoe * 365 + yoe / 4 - yoe / 100 + doy in
era * 146097 + doe - 719468.

(** [n] in decimal, on [width] digits *)
Fixpoint digits (width : nat) (n : Z) : string :=
match width with
| O => ""
| S width' =>
    digits width' (n / 10) +:+ String (ascii_of_N (48 + Z.to_N (n mod 10))) ""
end.

(** [YYYY-MM-DDTHH:mm:ss.sssZ], with a sign and six digits for a year
    outside 0 to 9999 *)
Definition ISO_string (t : Z) : string :=
let '(y, m, d) := civil_from_days (t / msPerDay) in
let ms := t mod msPerDay in
(if (0 <=? y) && (y <=? 9999) then digits 4 y
 else (if y <? 0 then "-" else "+") +:+ digits 6 (Z.abs y))
+:+ "-" +:+ digits 2 m +:+ "-" +:+ digits 2 d
+:+ "T" +:+ digits 2 (ms / 3600000) +:+ ":" +:+ digits 2 (ms / 60000 mod 60)
+:+ ":" +:+ digits 2 (ms / 1000 mod 60) +:+ "." +:+ digits 3 (ms mod 1000)
+:+ "Z".

(** the number a field of digits denotes *)
Definition field (s : string) (from len : nat) : Z :=
Z.of_N (URL.number_of 10 (take len (drop from (list_ascii_of_string s)))).

(** the time value of a string in that format; any other string is taken
    for an invalid date *)
Definition ISO_parse (s : string) : option Z :=
let '(sign, s') :=
  match s with
  | String "-" s' => (-1, s')
  | String "+" s' => (1, s')
  | _ => (1, s)
  end in
let w := (String.length s' - 20)%nat in
let t := days_from_civil (sign * field s' 0 w) (field s' (w + 1) 2)
                         (field s' (w + 4) 2) * msPerDay
         + field s' (w + 7) 2 * 3600000 + field s' (w + 10) 2 * 60000
         + field s' (w + 13) 2 * 1000 + field s' (w + 16) 3 in
if String.eqb (ISO_string t) s then Some t else None.

(** the characters of a string, each under its index in decimal *)
Definition characters (s : string) : obj :=
list_to_map (imap (λ i c, (pretty i, VStr (String c "")))
                  (list_ascii_of_string s)).

Lemma jsonify_obj_idemp (o : obj) : jsonify_obj (jsonify_obj o) = jsonify_obj o.
Proof.
  unfold jsonify_obj. apply map_eq. intros p.
  rewrite !map_lookup_filter.
  destruct (o !! p) as [v|]; simpl; [|done].
  case_guard; simpl; [|done]. by rewrite option_guard_True.
Qed.

Lemma jsonify_idemp (d : document) : jsonify (jsonify d) = jsonify d.
Proof.
  unfold jsonify. rewrite <- map_fmap_compose. apply map_fmap_ext.
  intros k o _. apply jsonify_obj_idemp.
Qed.

Lemma jsonify_parsed (data : option document) (d : document) :
  jsonify <$> data = Some d → jsonify d = d.
Proof.
  destruct data as [d'|]; simpl; [|done].
  intros [= <-]. apply jsonify_idemp.
Qed.

Definition reference : Runtime := {|
  text := option document;
  JSON_stringify d := Some (jsonify d);
  JSON_parse data := jsonify <$> data;
  JSON_parse_stringify d := f_equal Some (jsonify_idemp d);
  JSON_parse_defined := jsonify_parsed;
  toISOString := ISO_string;
  Date_parse := ISO_parse;
  LocalTime t := t;
  UTC t := t;
  String_entries := characters;
  unicode_ToASCII _ := None;
  ipv6_parse _ := false
|}.

(** ** Hexadecimal strings *)

(** Every character of the string satisfies [P]. *)
Fixpoint all_chars (P : ascii → bool) (s : string) : bool :=
match s with
| EmptyString => true
| String c s' => P c && all_chars P s'
end.

(** a digit of lower-case hexadecimal: [0-9a-f] *)
Definition is_lower_hex_digit (c : ascii) : bool :=
URL.in_range 48 57 c || URL.in_range 97 102 c.

(** the byte two hexadecimal digits denote *)
Definition unhex_byte (c1 c2 : ascii) : option byte :=
Byte.of_N (URL.digit_value c1 * 16 + URL.digit_value c2).

Fixpoint unhex (s : string) : list (option byte) :=
match s with
| String c1 (String c2 s') => unhex_byte c1 c2 :: unhex s'
| _ => []
end.

(** ** Names for the statements about [POST /api/keys] *)

(** The number of records of a document whose [userId] is [u], revoked or
    not. *)
Definition user_key_count (proto : obj) (apiKeys : document) (u : jsval)
  : nat :=
size (filter (λ kr, lookup_chain proto kr.2 "userId" = u) apiKeys).

Definition QuotaExceeded : response :=
error 400 "Maximum number of API keys (5) reached for this user".

(** the [userId] of [POST /api/keys]: the body's when it is truthy, or else
    the hexadecimal of eight random bytes *)
Definition requested_userId `{Runtime} (req : request) (w : World) : jsval :=
let supplied := lookup_chain (prototype w) (body req) "userId" in
if truthy supplied then supplied
else VStr (hex (entropy w <$> seq (drawn w) 8)).

(** the world after [userId] is computed *)
Definition after_userId `{Runtime} (req : request) (w : World) : World :=
if truthy (lookup_chain (prototype w) (body req) "userId") then w
else set_drawn (drawn w + 8) w.

(** the record [POST /api/keys] stores *)
Definition created_record (userId : jsval) (createdAt expiresAt : string)
    (description : jsval) : obj :=
{[ "userId" := userId;
   "createdAt" := VStr createdAt;
   "expiresAt" := VStr expiresAt;
   "lastUsed" := VNull;
   "revoked" := VBool false;
   "description" := description ]}.

(** ** Names for the statements about the other routes *)

Definition InvalidURL : response := error 400 "Invalid URL provided".
Definition NotFound : response := error 404 "Short URL not found".

(** Following the specification: the string parses as an absolute URL with
    at least a scheme and a host. *)
Definition has_scheme_and_host `{Runtime} (s : string) : Prop :=
∃ r, URL.parse s = Some r ∧ URL.scheme r ≠ "" ∧ is_Some (URL.url_host r).

(** the own properties of what a reference leads to, as they are read
    and as they are copied *)
Definition props_of `{Runtime} (w : World) (doc : document) (r : ref) : obj :=
match r with
| Own k => default ∅ (doc !! k)
| Builtin k => default ∅ (builtins w !! k)
| Inherited _ => ∅
end.

Definition copy_of `{Runtime} (w : World) (doc : document) (r : ref) : obj :=
match r with
| Inherited (VStr s) => String_entries s
| _ => props_of w doc r
end.

(** the document and the world after [doc[k].p = v] *)
Definition doc_after_set (doc : document) (r : ref) (p : string) (v : jsval)
  : document :=
match r with
| Own k => alter (<[p := v]>) k doc
| Builtin _ | Inherited _ => doc
end.

Definition world_after_set `{Runtime} (w : World) (r : ref) (p : string)
    (v : jsval) : World :=
match r with
| Own _ | Inherited _ => w
| Builtin k =>
    set_builtins
      (<[k := <[p := v]> (default ∅ (builtins w !! k))]> (builtins w)) w
end.

(** Every identifier of every store of [w] is an identifier of the same
    store of [w']. *)
Definition grows `{Runtime} (w w' : World) : Prop :=
∀ path d, store w path = Ok d → ∃ d', store w' path = Ok d' ∧ dom d ⊆ dom d'.

(** ** Names for the statements about the routes together *)

(** the world after [validateApiKey] let a key with reference [r] pass:
    two readings of the clock, [lastUsed] set *)
Definition after_gate `{Runtime} (w : World) (r : ref) : World :=
world_after_set (set_ticks (S (S (ticks w))) w) r "lastUsed"
  (VStr (toISOString (clock w (S (ticks w))))).

(** the key [POST /api/keys] draws for [req0] in [w], the time value of
    the expiry it reckons, and the record it stores *)
Definition new_key `{Runtime} (req0 : request) (w : World) : string :=
hex (entropy w <$> seq (drawn (after_userId req0 w)) 16).

Definition new_expiry `{Runtime} (w : World) : Z :=
setDate_getDate_plus (clock w (S (ticks w))) API_KEY_EXPIRATION_DAYS.

Definition new_record `{Runtime} (req0 : request) (w : World) : obj :=
created_record (requested_userId req0 w) (toISOString (clock w (ticks w)))
  (toISOString (new_expiry w))
  (js_or (lookup_chain (prototype w) (body req0) "description") VNull).

(** the fields of a key record that the routes change after its
    creation *)
Definition volatile : list string :=
["lastUsed"; "revoked"; "revokedAt"; "description"; "updatedAt"].

(** [r'] is [r] but for the volatile fields, and is revoked if [r] is *)
Definition kept (r r' : obj) : Prop :=
(∀ p, p ∉ volatile → r' !! p = r !! p)
∧ (r !! "revoked" = Some (VBool true) → r' !! "revoked" = Some (VBool true)).

(** the key store of [w'] holds under [k] the record of [w], kept *)
Definition keeps `{Runtime} (w w' : World) (k : string) : Prop :=
∀ d r, store w API_KEYS_FILE = Ok d → d !! k = Some r →
       ∃ d' r', store w' API_KEYS_FILE = Ok d' ∧ d' !! k = Some r'
                ∧ kept r r'.

(** No request has put [revoked], [expiresAt] or [userId] on a built-in
    object. *)
Definition untouched `{Runtime} (w : World) : Prop :=
∀ j o p, builtins w !! j = Some o →
         p ∈ ["revoked"; "expiresAt"; "userId"] → o !! p = None.

(** the key and the user [Basic.post_api_keys] draws in [w], and the
    record it stores *)
Definition basic_key `{Runtime} (w : World) : string :=
hex (entropy w <$> seq (drawn w) 16).

Definition basic_user `{Runtime} (w : World) : string :=
hex (entropy w <$> seq (drawn w + 16) 8).

Definition basic_record `{Runtime} (w : World) : obj :=
{[ "userId" := VStr (basic_user w);
   "createdAt" := VStr (toISOString (clock w (ticks w))) ]}.

(** a host that a URL of a special scheme other than [file] can have: a
    domain that is not empty, or an address *)
Definition proper_host (h : URL.host) : Prop :=
match h with
| URL.Domain name => name ≠ ""
| URL.IPv4 _ | URL.IPv6 _ => True
| URL.OpaqueHost _ | URL.EmptyHost => False
end.

(** ** The worlds and requests of the examples *)

Definition a_request (key : option string) (b : obj) : request :=
{| x_api_key := key; body := b; protocol := "http";
   host := VStr "localhost:3000" |}.

Definition a_world (files : gmap string (@node reference))
    (times : nat → Z) (bytes : nat → byte) : @World reference :=
{| fs := files; builtins := ∅; clock := times; ticks := 0;
   entropy := bytes; drawn := 0 |}.

(** the generator that counts: byte [n] is [n mod 256] *)
Definition counting (n : nat) : byte :=
default Byte.x00 (Byte.of_nat (n mod 256)).

(** a key of user [u1] that expires at time 1000, one second after the
    epoch *)
Definition a_key : obj :=
{[ "userId" := VStr "u1";
   "createdAt" := VStr "1970-01-01T00:00:00.000Z";
   "expiresAt" := VStr "1970-01-01T00:00:01.000Z";
   "lastUsed" := VNull; "revoked" := VBool false; "description" := VNull ]}.

Definition keys_file (d : document) : gmap string (@node reference) :=
{[ API_KEYS_FILE := File (Some d : @text reference) ]}.

(** user [u1] asks for a key *)
Definition u1_asks : request := a_request None {[ "userId" := VStr "u1" ]}.

(** the world after user [u1] has asked for [n] keys, from no file at all,
    with a clock that ticks once per reading *)
Definition after_keys (n : nat) : @World reference :=
Nat.iter n (λ w, (post_api_keys u1_asks w).2) (a_world ∅ Z.of_nat counting).

(** a request to shorten [u] with the key [k1] *)
Definition asks_to_shorten (u : string) : request :=
a_request (Some "k1") {[ "url" := VStr u ]}.

(** a world where [k1] is a valid key, with a clock that ticks once per
    reading *)
Definition with_key (bytes : nat → byte) : @World reference :=
a_world (keys_file {[ "k1" := a_key ]}) Z.of_nat bytes.

(** a revoked key of user [u1] *)
Definition a_revoked_key : obj := <["revoked" := VBool true]> a_key.

(** a world where [k1] is revoked *)
Definition with_revoked_key : @World reference :=
a_world (keys_file {[ "k1" := a_revoked_key ]}) Z.of_nat counting.



(** a world with no file yet *)
Definition fresh : @World reference := a_world ∅ Z.of_nat counting.

(** the answer to user [u1]'s first request for a key *)
Definition first_key_of_u1 : payload :=
Object {[ "apiKey" := VStr "000102030405060708090a0b0c0d0e0f";
          "userId" := VStr "u1";
          "expiresAt" := VStr "1970-01-31T00:00:00.001Z" ]}.

(** what a computation answered with 200, if it did *)
Definition answer {W : Type} (x : outcome response * W) : payload :=
match x.1 with
| Ok (Json 200 b) => b
| _ => Object ∅
end.

(** the document of a store that can be read *)
Definition document_of (s : outcome document) : document :=
match s with
| Ok d => d
| Throw _ => ∅
end.

(** * Properties *)

(** ** Running the monad and the store *)

Section Store_facts.
Context `{Runtime}.

Lemma bind_run {A B} (m : M A) (k : A → M B) (w : World) :
  (m ≫= k) w = match m w with
               | (Ok a, w') => k a w'
               | (Throw e, w') => (Throw e, w')
               end.
Proof. reflexivity. Qed.

Lemma store_eq (w : World) (filePath : string) :
  store w filePath =
  match fs w !! filePath with
  | None => Ok ∅
  | Some (Fault c) => if bool_decide (c = "ENOENT") then Ok ∅
                      else Throw (SystemError c)
  | Some (File data) => match JSON_parse data with
                        | Some d => Ok d
                        | None => Throw SyntaxError
                        end
  end.
Proof.
  unfold store, readJSON, try_catch, readFile, parse. rewrite bind_run.
  destruct (fs w !! filePath) as [[data|c]|] eqn:E; simpl.
  - destruct (JSON_parse data); reflexivity.
  - repeat case_bool_decide; simplify_eq; reflexivity.
  - reflexivity.
Qed.

(** [readJSON] reads: it leaves the world as it is. *)
Lemma readJSON_run (filePath : string) (w : World) :
  readJSON filePath w = (store w filePath, w).
Proof.
  unfold store, readJSON, try_catch, readFile, parse. rewrite bind_run.
  destruct (fs w !! filePath) as [[data|c]|] eqn:E; simpl.
  - destruct (JSON_parse data); reflexivity.
  - repeat case_bool_decide; simplify_eq; reflexivity.
  - reflexivity.
Qed.

Lemma writeJSON_run (filePath : string) (d : document) (w : World) :
  writeJSON filePath d w =
  match fs w !! filePath with
  | Some (Fault c) => (Throw (SystemError c), w)
  | _ => (Ok (), set_fs (<[filePath := File (JSON_stringify d)]> (fs w)) w)
  end.
Proof.
  unfold writeJSON, writeFile.
  destruct (fs w !! filePath) as [[]|]; reflexivity.
Qed.

(** A document that was read holds no [undefined]. *)
Lemma store_defined (w : World) (p : string) (d : document) :
  store w p = Ok d → jsonify d = d.
Proof.
  rewrite store_eq. destruct (fs w !! p) as [[data|c]|].
  - destruct (JSON_parse data) eqn:E; [|done]. intros [= <-].
    by eapply JSON_parse_defined.
  - case_bool_decide; [|done]. intros [= <-]. apply fmap_empty.
  - intros [= <-]. apply fmap_empty.
Qed.

(** A document that holds a record was read from a file. *)
Lemma store_record_file (w : World) (p k : string) (d : document) (r : obj) :
  store w p = Ok d → d !! k = Some r → ∃ data, fs w !! p = Some (File data).
Proof.
  rewrite store_eq. destruct (fs w !! p) as [[data|c]|]; [eauto|..].
  - case_bool_decide; [|done]. intros [= <-]. by rewrite lookup_empty.
  - intros [= <-]. by rewrite lookup_empty.
Qed.

Lemma store_same_fs (w w' : World) (p : string) :
  fs w' = fs w → store w' p = store w p.
Proof. intros E. by rewrite !store_eq, E. Qed.

Lemma jsonify_lookup (d : document) (k : string) :
  jsonify d !! k = jsonify_obj <$> d !! k.
Proof. apply lookup_fmap. Qed.

Lemma jsonify_record (d : document) (k : string) (r : obj) :
  jsonify d = d → d !! k = Some r → jsonify_obj r = r.
Proof.
  intros Hd Hr. assert (E : jsonify d !! k = Some r) by by rewrite Hd.
  rewrite jsonify_lookup, Hr in E. by simplify_eq/=.
Qed.

Lemma jsonify_obj_lookup (o : obj) (p : string) (v : jsval) :
  jsonify_obj o !! p = Some v ↔ o !! p = Some v ∧ v ≠ VUndefined.
Proof. unfold jsonify_obj. by rewrite map_lookup_filter_Some. Qed.

Lemma jsonify_obj_insert (o : obj) (p : string) (v : jsval) :
  v ≠ VUndefined → jsonify_obj (<[p := v]> o) = <[p := v]> (jsonify_obj o).
Proof. intros Hv. unfold jsonify_obj. by rewrite map_filter_insert_True. Qed.

Lemma jsonify_insert (d : document) (k : string) (o : obj) :
  jsonify (<[k := o]> d) = <[k := jsonify_obj o]> (jsonify d).
Proof. apply fmap_insert. Qed.

Lemma dom_jsonify (d : document) : dom (jsonify d) = dom d.
Proof. apply dom_fmap_L. Qed.

Lemma truthy_VStr (k : string) : k ≠ "" → truthy (VStr k) = true.
Proof. simpl. destruct (String.eqb_spec k ""); done. Qed.
End Store_facts.

(** ** The steps of the handlers *)

Section Steps.
Context `{Runtime}.

Lemma alter_record (d : document) (k : string) (r : obj) (f : obj → obj) :
  d !! k = Some r → alter f k d = <[k := f r]> d.
Proof.
  intros Hr. apply map_eq. intros j. rewrite lookup_alter, lookup_insert.
  case_decide; subst; by rewrite ?Hr.
Qed.

Lemma mret_run {A} (a : A) (w : World) : (mret a : M A) w = (Ok a, w).
Proof. reflexivity. Qed.

Lemma new_Date_run (w : World) :
  new_Date w = (Ok (clock w (ticks w)), set_ticks (S (ticks w)) w).
Proof. reflexivity. Qed.

Lemma randomBytes_run (n : nat) (w : World) :
  randomBytes n w
  = (Ok (entropy w <$> seq (drawn w) n), set_drawn (drawn w + n)%nat w).
Proof. reflexivity. Qed.

Lemma get_run (o : obj) (p : string) (w : World) :
  get o p w = (Ok (lookup_chain (prototype w) o p), w).
Proof. reflexivity. Qed.

Lemma get_prop_own (doc : document) (k p : string) (r : obj) (w : World) :
  doc !! k = Some r →
  get_prop doc (Own k) p w = (Ok (lookup_chain (prototype w) r p), w).
Proof.
  intros Hr. unfold get_prop, readable, deref. rewrite Hr. reflexivity.
Qed.

Lemma set_prop_own (doc : document) (k p : string) (v : jsval) (r : obj)
    (w : World) :
  doc !! k = Some r →
  set_prop doc (Own k) p v w = (Ok (<[k := <[p := v]> r]> doc), w).
Proof.
  intros Hr. unfold set_prop. by rewrite (alter_record _ _ r).
Qed.

Lemma isKeyExpired_own (doc : document) (k : string) (r : obj) (w : World) :
  doc !! k = Some r →
  isKeyExpired doc (Own k) w
  = (Ok (Date_lt (Date_value (lookup_chain (prototype w) r "expiresAt"))
                 (clock w (ticks w))),
     set_ticks (S (ticks w)) w).
Proof.
  intros Hr. unfold isKeyExpired. by rewrite bind_run, (get_prop_own _ _ _ r).
Qed.

Lemma lookup_chain_own (proto o : obj) (p : string) (v : jsval) :
  o !! p = Some v → lookup_chain proto o p = v.
Proof. intros Hp. unfold lookup_chain. by rewrite Hp. Qed.

Lemma lookup_chain_insert_ne (proto o : obj) (p q : string) (v : jsval) :
  p ≠ q → lookup_chain proto (<[p := v]> o) q = lookup_chain proto o q.
Proof. intros Hne. unfold lookup_chain. by rewrite lookup_insert_ne. Qed.

Lemma jsonify_set (d : document) (k p : string) (r : obj) (v : jsval) :
  jsonify d = d → d !! k = Some r → v ≠ VUndefined →
  jsonify (<[k := <[p := v]> r]> d) = <[k := <[p := v]> r]> d.
Proof.
  intros Hd Hr Hv.
  by rewrite jsonify_insert, jsonify_obj_insert, Hd, (jsonify_record d k r).
Qed.
End Steps.

(** ** The parts of a world *)

Section World_facts.
Context `{Runtime}.

Lemma fs_set_fs x (w : World) : fs (set_fs x w) = x.
Proof. reflexivity. Qed.

Lemma builtins_set_fs x (w : World) : builtins (set_fs x w) = builtins w.
Proof. reflexivity. Qed.

Lemma clock_set_fs x (w : World) : clock (set_fs x w) = clock w.
Proof. reflexivity. Qed.

Lemma ticks_set_fs x (w : World) : ticks (set_fs x w) = ticks w.
Proof. reflexivity. Qed.

Lemma entropy_set_fs x (w : World) : entropy (set_fs x w) = entropy w.
Proof. reflexivity. Qed.

Lemma drawn_set_fs x (w : World) : drawn (set_fs x w) = drawn w.
Proof. reflexivity. Qed.

Lemma fs_set_builtins x (w : World) : fs (set_builtins x w) = fs w.
Proof. reflexivity. Qed.

Lemma builtins_set_builtins x (w : World) : builtins (set_builtins x w) = x.
Proof. reflexivity. Qed.

Lemma clock_set_builtins x (w : World) : clock (set_builtins x w) = clock w.
Proof. reflexivity. Qed.

Lemma ticks_set_builtins x (w : World) : ticks (set_builtins x w) = ticks w.
Proof. reflexivity. Qed.

Lemma entropy_set_builtins x (w :
  World) : entropy (set_builtins x w) = entropy w.
Proof. reflexivity. Qed.

Lemma drawn_set_builtins x (w : World) : drawn (set_builtins x w) = drawn w.
Proof. reflexivity. Qed.

Lemma fs_set_ticks x (w : World) : fs (set_ticks x w) = fs w.
Proof. reflexivity. Qed.

Lemma builtins_set_ticks x (w : World) : builtins (set_ticks x w) = builtins w.
Proof. reflexivity. Qed.

Lemma clock_set_ticks x (w : World) : clock (set_ticks x w) = clock w.
Proof. reflexivity. Qed.

Lemma ticks_set_ticks x (w : World) : ticks (set_ticks x w) = x.
Proof. reflexivity. Qed.

Lemma entropy_set_ticks x (w : World) : entropy (set_ticks x w) = entropy w.
Proof. reflexivity. Qed.

Lemma drawn_set_ticks x (w : World) : drawn (set_ticks x w) = drawn w.
Proof. reflexivity. Qed.

Lemma fs_set_drawn x (w : World) : fs (set_drawn x w) = fs w.
Proof. reflexivity. Qed.

Lemma builtins_set_drawn x (w : World) : builtins (set_drawn x w) = builtins w.
Proof. reflexivity. Qed.

Lemma clock_set_drawn x (w : World) : clock (set_drawn x w) = clock w.
Proof. reflexivity. Qed.

Lemma ticks_set_drawn x (w : World) : ticks (set_drawn x w) = ticks w.
Proof. reflexivity. Qed.

Lemma entropy_set_drawn x (w : World) : entropy (set_drawn x w) = entropy w.
Proof. reflexivity. Qed.

Lemma drawn_set_drawn x (w : World) : drawn (set_drawn x w) = x.
Proof. reflexivity. Qed.

Lemma prototype_set_fs x (w : World) : prototype (set_fs x w) = prototype w.
Proof. reflexivity. Qed.

Lemma prototype_set_ticks x (w :
  World) : prototype (set_ticks x w) = prototype w.
Proof. reflexivity. Qed.

Lemma prototype_set_drawn x (w :
  World) : prototype (set_drawn x w) = prototype w.
Proof. reflexivity. Qed.

Lemma set_fs_set_fs x y (w : World) : set_fs x (set_fs y w) = set_fs x w.
Proof. reflexivity. Qed.

Lemma set_builtins_set_builtins x y (w :
  World) : set_builtins x (set_builtins y w) = set_builtins x w.
Proof. reflexivity. Qed.

Lemma set_ticks_set_ticks x y (w :
  World) : set_ticks x (set_ticks y w) = set_ticks x w.
Proof. reflexivity. Qed.

Lemma set_drawn_set_drawn x y (w :
  World) : set_drawn x (set_drawn y w) = set_drawn x w.
Proof. reflexivity. Qed.
End World_facts.

Create Rewrite HintDb world.
#[global] Hint Rewrite
  @fs_set_fs
  @builtins_set_fs
  @clock_set_fs
  @ticks_set_fs
  @entropy_set_fs
  @drawn_set_fs
  @fs_set_builtins
  @builtins_set_builtins
  @clock_set_builtins
  @ticks_set_builtins
  @entropy_set_builtins
  @drawn_set_builtins
  @fs_set_ticks
  @builtins_set_ticks
  @clock_set_ticks
  @ticks_set_ticks
  @entropy_set_ticks
  @drawn_set_ticks
  @fs_set_drawn
  @builtins_set_drawn
  @clock_set_drawn
  @ticks_set_drawn
  @entropy_set_drawn
  @drawn_set_drawn
  @prototype_set_fs
  @prototype_set_ticks
  @prototype_set_drawn
  @set_fs_set_fs
  @set_builtins_set_builtins
  @set_ticks_set_ticks
  @set_drawn_set_drawn
  : world.

(** A closed decidable statement, decided by evaluation. *)
Ltac by_computation :=
  refine (bool_decide_eq_true_1 _ _); vm_compute; reflexivity.

Ltac run_step :=
  first [ rewrite bind_run | rewrite mret_run | rewrite readJSON_run
        | rewrite writeJSON_run | rewrite new_Date_run
        | rewrite randomBytes_run | rewrite get_run ];
  cbv beta iota.
Ltac run := repeat run_step.

(** ** The steps on references *)

Section Refs.
Context `{Runtime}.

Lemma item_run (doc : document) (k : string) (w : World) :
  item doc k w = (Ok (index (prototype w) doc k), w).
Proof. reflexivity. Qed.

Lemma deref_run (doc : document) (r : ref) (w : World) :
  deref doc r w = (Ok (copy_of w doc r), w).
Proof. by destruct r as [| |[]]. Qed.

Lemma readable_run (doc : document) (r : ref) (w : World) :
  readable doc r w = (Ok (props_of w doc r), w).
Proof. by destruct r. Qed.

Lemma get_prop_run (doc : document) (r : ref) (p : string) (w : World) :
  get_prop doc r p w = (Ok (lookup_chain (prototype w) (props_of w doc r) p), w).
Proof. unfold get_prop. by rewrite bind_run, readable_run. Qed.

Lemma set_prop_run (doc : document) (r : ref) (p : string) (v : jsval)
    (w : World) :
  set_prop doc r p v w = (Ok (doc_after_set doc r p v), world_after_set w r p v).
Proof. by destruct r. Qed.

Lemma isKeyExpired_run (doc : document) (r : ref) (w : World) :
  isKeyExpired doc r w
  = (Ok (Date_lt (Date_value (lookup_chain (prototype w) (props_of w doc r)
                                           "expiresAt"))
                 (clock w (ticks w))),
     set_ticks (S (ticks w)) w).
Proof. unfold isKeyExpired. by rewrite bind_run, get_prop_run. Qed.

Lemma fs_world_after_set w r p v : fs (world_after_set w r p v) = fs w.
Proof. by destruct r. Qed.
Lemma clock_world_after_set w r p v : clock (world_after_set w r p v) = clock w.
Proof. by destruct r. Qed.
Lemma ticks_world_after_set w r p v : ticks (world_after_set w r p v) = ticks w.
Proof. by destruct r. Qed.
Lemma entropy_world_after_set w r p v :
  entropy (world_after_set w r p v) = entropy w.
Proof. by destruct r. Qed.
Lemma drawn_world_after_set w r p v : drawn (world_after_set w r p v) = drawn w.
Proof. by destruct r. Qed.

Lemma dom_doc_after_set doc r p v : dom (doc_after_set doc r p v) = dom doc.
Proof. destruct r; [apply dom_alter_L|done..]. Qed.
End Refs.

#[global] Hint Rewrite @fs_world_after_set @clock_world_after_set
  @ticks_world_after_set @entropy_world_after_set @drawn_world_after_set
  : world.

Ltac exec_step :=
  first [ rewrite bind_run | rewrite mret_run | rewrite readJSON_run
        | rewrite writeJSON_run | rewrite new_Date_run
        | rewrite randomBytes_run | rewrite get_run
        | rewrite get_prop_run | rewrite set_prop_run
        | rewrite isKeyExpired_run | rewrite deref_run
        | rewrite item_run ];
  cbv beta iota.
Ltac exec := repeat exec_step.

(** ** Hexadecimal encoding *)

Lemma all_chars_app (P : ascii → bool) (s t : string) :
  all_chars P (s +:+ t) = all_chars P s && all_chars P t.
Proof.
  induction s as [|c s IH]; simpl; [done|]. by rewrite IH, andb_assoc.
Qed.

Lemma hex_of_byte_digits (b : byte) :
  ∃ c1 c2, hex_of_byte b = String c1 (String c2 "")
           ∧ is_lower_hex_digit c1 = true ∧ is_lower_hex_digit c2 = true
           ∧ unhex_byte c1 c2 = Some b.
Proof.
  eexists _, _. split; [reflexivity|]. destruct b; vm_compute; done.
Qed.

Lemma hex_length (bs : list byte) :
  String.length (hex bs) = (2 * length bs)%nat.
Proof.
  induction bs as [|b bs IH]; [done|].
  destruct (hex_of_byte_digits b) as (c1 & c2 & E & _).
  cbn [hex]. rewrite E.
  change (String.length (String c1 (String c2 "") +:+ hex bs))
    with (S (S (String.length (hex bs)))). rewrite IH. simpl. lia.
Qed.

Lemma hex_digits (bs : list byte) : all_chars is_lower_hex_digit (hex bs) = true.
Proof.
  induction bs as [|b bs IH]; [done|].
  destruct (hex_of_byte_digits b) as (c1 & c2 & E & H1 & H2 & _).
  cbn [hex]. rewrite E, all_chars_app, IH. cbn [all_chars].
  by rewrite H1, H2.
Qed.

Lemma unhex_hex (bs : list byte) : unhex (hex bs) = Some <$> bs.
Proof.
  induction bs as [|b bs IH]; [done|].
  destruct (hex_of_byte_digits b) as (c1 & c2 & E & _ & _ & Hb).
  cbn [hex]. rewrite E.
  change (unhex (String c1 (String c2 "") +:+ hex bs))
    with (unhex_byte c1 c2 :: unhex (hex bs)). by rewrite Hb, IH.
Qed.

Lemma hex_inj (bs1 bs2 : list byte) : hex bs1 = hex bs2 → bs1 = bs2.
Proof.
  intros E. apply (f_equal unhex) in E. rewrite !unhex_hex in E.
  by apply (inj (fmap Some)) in E.
Qed.

Lemma pair_eq {A B} (x : A * B) (a : A) (b : B) :
  x.1 = a → x.2 = b → x = (a, b).
Proof. destruct x. simpl. congruence. Qed.

(** ** C8: the store's read operation *)

Section Read.
Context `{Runtime}.

(** C8. [readJSON] returns the empty mapping when the file does not exist
    (the read fails with [ENOENT]), the parsed document when the file holds
    valid JSON, and fails with the parser's [SyntaxError] when the file
    exists and is not valid JSON; any other failure of the read is passed
    on. It never changes the world. *)
Theorem readJSON_contract (filePath : string) (w : World) :
  (fs w !! filePath = None ∨ fs w !! filePath = Some (Fault "ENOENT") →
   readJSON filePath w = (Ok ∅, w)) ∧
  (∀ data d, fs w !! filePath = Some (File data) → JSON_parse data = Some d →
     readJSON filePath w = (Ok d, w)) ∧
  (∀ data, fs w !! filePath = Some (File data) → JSON_parse data = None →
     readJSON filePath w = (Throw SyntaxError, w)) ∧
  (∀ c, fs w !! filePath = Some (Fault c) → c ≠ "ENOENT" →
     readJSON filePath w = (Throw (SystemError c), w)).
Proof.
  rewrite readJSON_run, store_eq. repeat split.
  - intros [-> | ->]; reflexivity.
  - intros data d -> ->. reflexivity.
  - intros data -> ->. reflexivity.
  - intros c -> Hc. by rewrite bool_decide_eq_false_2.
Qed.
End Read.

Lemma readJSON_contract_witness :
  readJSON (H := reference) URLS_FILE (a_world (keys_file ∅) (λ _, 0) counting)
  = (Ok ∅, a_world (keys_file ∅) (λ _, 0) counting).
Proof.
  apply (proj1 (readJSON_contract URLS_FILE _)). left. reflexivity.
Defined.

(** ** C1: the authorization gate *)

Section Gate.
Context `{Runtime}.

(** C1, as amended. [validateApiKey] answers [Unauthorized] (401) when the
    request carries no API key (none, or the empty string), whatever the
    store; else [InvalidKey] when the store holds no record under the key
    and the key is not a name objects inherit, neither one that
    [Object.prototype] has from the start nor one that an earlier request
    has put on it; else [Revoked] when the
    record has [revoked = true], expired or not; else [Expired] when the
    clock reads a time after [expiresAt]; and when the clock reads a time
    not after [expiresAt] it sets the record's [lastUsed] to the next
    reading of the clock, writes the store, which then holds the record so
    changed and every other record as before, and hands the record's
    [userId] on. *)
Theorem validateApiKey_gate (req : request) (w : World) :
  ((x_api_key req = None ∨ x_api_key req = Some "") →
   validateApiKey req w = (Ok (Responded Unauthorized), w)) ∧
  (∀ k apiKeys,
     x_api_key req = Some k → k ≠ "" → store w API_KEYS_FILE = Ok apiKeys →
     (apiKeys !! k = None → k ∉ Object_prototype_names →
      prototype w !! k = None →
      validateApiKey req w = (Ok (Responded InvalidKey), w)) ∧
     (∀ r, apiKeys !! k = Some r →
        (r !! "revoked" = Some (VBool true) →
         validateApiKey req w = (Ok (Responded Revoked), w)) ∧
        (∀ s expiresAt,
           r !! "revoked" = Some (VBool false) →
           r !! "expiresAt" = Some (VStr s) → Date_parse s = Some expiresAt →
           let now := clock w (ticks w) in
           (expiresAt < now →
            validateApiKey req w
            = (Ok (Responded Expired), set_ticks (S (ticks w)) w)) ∧
           (now ≤ expiresAt →
            let lastUsed := VStr (toISOString (clock w (S (ticks w)))) in
            let apiKeys' := <[k := <["lastUsed" := lastUsed]> r]> apiKeys in
            let w' :=
              set_fs (<[API_KEYS_FILE := File (JSON_stringify apiKeys')]>
                        (fs w))
                     (set_ticks (S (S (ticks w))) w) in
            validateApiKey req w
            = (Ok (Next {| req := req;
                           userId := lookup_chain (prototype w) r "userId";
                           apiKey := k |}), w')
            ∧ store w' API_KEYS_FILE = Ok apiKeys')))).
Proof.
  split.
  { unfold validateApiKey. intros [-> | ->]; reflexivity. }
  intros k apiKeys Hk Hne Hs.
  assert (Hrun : validateApiKey req w =
    try_catch
      (apiKeys ← readJSON API_KEYS_FILE;
       keyData ← item apiKeys k;
       match keyData with
       | None => mret (Responded (error 401 "Invalid API key"))
       | Some keyData =>
           revoked ← get_prop apiKeys keyData "revoked";
           if truthy revoked
           then mret (Responded (error 401 "API key has been revoked"))
           else
             expired ← isKeyExpired apiKeys keyData;
             if expired : bool
             then mret (Responded (error 401 "API key has expired"))
             else
               now ← new_Date;
               apiKeys ← set_prop apiKeys keyData "lastUsed"
                           (VStr (toISOString now));
               writeJSON API_KEYS_FILE apiKeys;;
               userId ← get_prop apiKeys keyData "userId";
               mret (Next {| req := req; userId := userId; apiKey := k |})
       end)
      (λ _, mret (Responded (error 500 "Internal server error"))) w).
  { unfold validateApiKey. by rewrite Hk, truthy_VStr. }
  rewrite Hrun. clear Hrun. unfold try_catch.
  rewrite bind_run, readJSON_run, Hs. cbv beta iota.
  rewrite bind_run, item_run. cbv beta iota. unfold index. split.
  { intros Hnone Hname Hproto.
    rewrite Hnone, Hproto, bool_decide_eq_false_2 by done. reflexivity. }
  intros r Hr. rewrite Hr. rewrite bind_run, (get_prop_own _ _ _ r) by done.
  split.
  { intros Hrev. rewrite (lookup_chain_own _ _ _ _ Hrev). reflexivity. }
  intros s e Hrev Hexp Hparse. cbv zeta.
  rewrite !(lookup_chain_own _ _ _ _ Hrev). cbn [truthy].
  rewrite !bind_run, !(isKeyExpired_own _ _ r) by done.
  rewrite !(lookup_chain_own _ _ _ _ Hexp). cbn [Date_value]. rewrite Hparse.
  cbn [Date_lt]. split.
  { intros Hlt. apply Z.ltb_lt in Hlt. rewrite Hlt. reflexivity. }
  intros Hle. apply Z.ltb_ge in Hle. rewrite Hle.
  destruct (store_record_file _ _ _ _ _ Hs Hr) as [data Hfile].
  rewrite bind_run, new_Date_run, bind_run, (set_prop_own _ _ _ _ r) by done.
  rewrite bind_run, writeJSON_run. cbn [fs set_ticks]. rewrite Hfile.
  rewrite bind_run.
  rewrite (get_prop_own _ _ _
             (<["lastUsed" := VStr (toISOString (clock w (S (ticks w))))]> r))
    by apply lookup_insert_eq.
  rewrite lookup_chain_insert_ne by done. split; [reflexivity|].
  rewrite store_eq. cbn [fs set_fs]. rewrite lookup_insert_eq.
  rewrite JSON_parse_stringify. f_equal.
  apply jsonify_set; [by eapply store_defined|done..].
Qed.
End Gate.

(** A key that expires at 1000 is refused when the clock reads 1001. *)
Lemma validateApiKey_gate_witness :
  let w := a_world (keys_file {[ "k1" := a_key ]}) (λ _, 1001) counting in
  validateApiKey (a_request (Some "k1") ∅) w
  = (Ok (Responded Expired), set_ticks 1 w).
Proof.
  intros w.
  refine (proj1 (proj2 (proj2 (proj2 (validateApiKey_gate _ w) "k1"
            {[ "k1" := a_key ]} _ _ _) a_key _)
            "1970-01-01T00:00:01.000Z" 1000 _ _ _) _).
  all: by_computation.
Defined.

(** C1 as stated fails: a key that is not revoked and expires at 1000
    passes the gate when the clock reads 1000, where the claim has it fail
    with [Expired] for [now >= expiresAt]. *)
Lemma validateApiKey_at_expiry :
  let w := a_world (keys_file {[ "k1" := a_key ]}) (λ _, 1000) counting in
  store w API_KEYS_FILE = Ok {[ "k1" := a_key ]}
  ∧ a_key !! "revoked" = Some (VBool false)
  ∧ Date_value (H := reference) (lookup_chain ∅ a_key "expiresAt") = Some 1000
  ∧ clock w (ticks w) >= 1000
  ∧ (validateApiKey (a_request (Some "k1") ∅) w).1
    = Ok (Next {| req := a_request (Some "k1") ∅; userId := VStr "u1";
                  apiKey := "k1" |}).
Proof. intros w. repeat split; by_computation. Qed.

(** ** C2 and C3: creating a key *)

Section Create.
Context `{Runtime}.

Lemma length_filter_snd {A B} (P : B → Prop) `{!∀ x, Decision (P x)}
    (l : list (A * B)) :
  length (filter P l.*2) = length (filter (λ kr, P kr.2) l).
Proof.
  induction l as [|[a b] l IH]; [done|]. cbn [fmap list_fmap].
  rewrite !filter_cons. simpl. case_decide; simpl; by rewrite IH.
Qed.

Lemma filter_bool_decide {A} (P : A → Prop) `{!∀ x, Decision (P x)}
    (l : list A) :
  List.filter (λ x, bool_decide (P x)) l = filter P l.
Proof.
  induction l as [|x l IH]; [done|]. rewrite filter_cons. simpl.
  rewrite IH. by case_bool_decide; case_decide.
Qed.

Lemma count_list (proto : obj) (apiKeys : document) (u : jsval) :
  length (List.filter (λ key, strict_eq (lookup_chain proto key "userId") u)
                      (map_to_list apiKeys).*2)
  = user_key_count proto apiKeys u.
Proof.
  unfold user_key_count, strict_eq.
  rewrite (filter_bool_decide (λ key, lookup_chain proto key "userId" = u)).
  rewrite length_filter_snd.
  rewrite map_filter_alt, <- length_map_to_list.
  apply Permutation_length. symmetry. apply map_to_list_to_map.
  eapply NoDup_fmap_fst.
  - intros k x y Hx Hy. apply list_elem_of_filter in Hx as [_ Hx].
    apply list_elem_of_filter in Hy as [_ Hy].
    apply elem_of_map_to_list in Hx, Hy. congruence.
  - apply NoDup_filter, NoDup_map_to_list.
Qed.

Lemma countUserKeys_run (u : jsval) (w : World) :
  countUserKeys u w
  = (match store w API_KEYS_FILE with
     | Ok apiKeys => Ok (user_key_count (prototype w) apiKeys u)
     | Throw e => Throw e
     end, w).
Proof.
  unfold countUserKeys. rewrite bind_run, readJSON_run.
  destruct (store w API_KEYS_FILE); [|done].
  rewrite bind_run. unfold Object_prototype, builtin_props.
  rewrite mret_run. by rewrite count_list.
Qed.

Lemma literal_expiresAt (proto : obj) (u c e l r d : jsval) :
  lookup_chain proto
    {[ "userId" := u; "createdAt" := c; "expiresAt" := e; "lastUsed" := l;
       "revoked" := r; "description" := d ]} "expiresAt" = e.
Proof.
  apply lookup_chain_own. rewrite !lookup_insert_ne by done.
  apply lookup_insert_eq.
Qed.

Lemma post_api_keys_run (req : request) (w : World) :
  post_api_keys req w =
  let userId := requested_userId req w in
  let w1 := after_userId req w in
  match store w API_KEYS_FILE with
  | Throw _ => (Ok (error 500 "Error generating API key"), w1)
  | Ok apiKeys =>
      if bool_decide (MAX_KEYS_PER_USER
                      ≤ user_key_count (prototype w) apiKeys userId)%nat
      then (Ok QuotaExceeded, w1)
      else
        let apiKey := hex (entropy w <$> seq (drawn w1) 16) in
        let expiresAt :=
          toISOString (setDate_getDate_plus (clock w (S (ticks w)))
                                            API_KEY_EXPIRATION_DAYS) in
        let record :=
          created_record userId (toISOString (clock w (ticks w))) expiresAt
            (js_or (lookup_chain (prototype w) (body req) "description")
                   VNull) in
        let w2 := set_ticks (S (S (ticks w)))
                            (set_drawn (drawn w1 + 16) w1) in
        match fs w !! API_KEYS_FILE with
        | Some (Fault _) => (Ok (error 500 "Error generating API key"), w2)
        | _ => (Ok (Json 200 (Object {[ "apiKey" := VStr apiKey;
                                        "userId" := userId;
                                        "expiresAt" := VStr expiresAt ]})),
                set_fs (<[API_KEYS_FILE :=
                            File (JSON_stringify (<[apiKey := record]> apiKeys))]>
                          (fs w)) w2)
        end
  end.
Proof.
  unfold post_api_keys, try_catch, requested_userId, after_userId.
  rewrite bind_run, get_run. cbv zeta.
  destruct (truthy (lookup_chain (prototype w) (body req) "userId")) eqn:Ht;
    run; rewrite countUserKeys_run; cbv beta iota;
    rewrite ?(store_same_fs w) by reflexivity;
    (destruct (store w API_KEYS_FILE) as [apiKeys|e] eqn:Hs; [|done]);
    autorewrite with world;
    (case_bool_decide; [done|]);
    unfold generateApiKey, getExpirationDate; run;
    rewrite (store_same_fs w) by reflexivity; rewrite Hs; run;
    autorewrite with world;
    (destruct (fs w !! API_KEYS_FILE) as [[data|c]|]; [|done|]);
    cbv beta iota; rewrite bind_run;
    erewrite get_prop_own by apply lookup_insert_eq;
    rewrite literal_expiresAt;
    reflexivity.
Qed.

Lemma store_after_userId (req : request) (w : World) (p : string) :
  store (after_userId req w) p = store w p.
Proof.
  unfold after_userId. case_match; [done|]. by apply store_same_fs.
Qed.

Lemma user_key_count_revoke (proto : obj) (apiKeys : document) (k : string)
    (r : obj) (v u : jsval) :
  apiKeys !! k = Some r →
  user_key_count proto (<[k := <["revoked" := v]> r]> apiKeys) u
  = user_key_count proto apiKeys u.
Proof.
  intros Hr. unfold user_key_count.
  destruct (decide (lookup_chain proto r "userId" = u)) as [Hu|Hu].
  - rewrite map_filter_insert_True
      by (simpl; by rewrite lookup_chain_insert_ne).
    rewrite <- (insert_id (filter _ apiKeys) k r) at 2
      by by apply map_lookup_filter_Some.
    rewrite <- (insert_delete_eq (filter _ apiKeys) k (<[_ := _]> r)).
    rewrite <- (insert_delete_eq (filter _ apiKeys) k r).
    by rewrite !map_size_insert_None by apply lookup_delete_eq.
  - rewrite map_filter_insert_not'; [done|..].
    + simpl. by rewrite lookup_chain_insert_ne.
    + intros r'. rewrite Hr. by intros [= <-].
Qed.

(** C2. [POST /api/keys] answers [QuotaExceeded] (400) and writes nothing
    (the file system is as before, the store holds the same document) when
    the store holds at least five records whose [userId] is the requested
    one. The count is over all records: revoking a record does not change
    it. *)
Theorem post_api_keys_quota (req : request) (w : World) (apiKeys : document) :
  store w API_KEYS_FILE = Ok apiKeys →
  (MAX_KEYS_PER_USER
   ≤ user_key_count (prototype w) apiKeys (requested_userId req w))%nat →
  post_api_keys req w = (Ok QuotaExceeded, after_userId req w)
  ∧ fs (after_userId req w) = fs w
  ∧ store (after_userId req w) API_KEYS_FILE = Ok apiKeys
  ∧ ∀ k r, apiKeys !! k = Some r →
      user_key_count (prototype w)
        (<[k := <["revoked" := VBool true]> r]> apiKeys)
        (requested_userId req w)
      = user_key_count (prototype w) apiKeys (requested_userId req w).
Proof.
  intros Hs Hcount. rewrite post_api_keys_run. cbv zeta. rewrite Hs.
  rewrite bool_decide_eq_true_2 by done. repeat split.
  - unfold after_userId. by case_match.
  - by rewrite store_after_userId.
  - intros k r Hr. by apply user_key_count_revoke.
Qed.
End Create.

(** The sixth key user [u1] asks for is refused. *)
Lemma post_api_keys_quota_witness :
  post_api_keys u1_asks (after_keys 5)
  = (Ok QuotaExceeded, after_userId u1_asks (after_keys 5)).
Proof.
  refine (proj1 (post_api_keys_quota u1_asks (after_keys 5)
            (match store (after_keys 5) API_KEYS_FILE with
             | Ok d => d
             | Throw _ => ∅
             end) _ _)).
  all: by_computation.
Defined.

Section Created.
Context `{Runtime}.

Lemma truthy_defined (v : jsval) : truthy v = true → v ≠ VUndefined.
Proof. by intros Ht ->. Qed.

Lemma js_or_null_defined (v : jsval) : js_or v VNull ≠ VUndefined.
Proof. unfold js_or. case_match eqn:Ht; [by apply truthy_defined|done]. Qed.

Lemma requested_userId_defined (req : request) (w : World) :
  requested_userId req w ≠ VUndefined.
Proof.
  unfold requested_userId. cbv zeta.
  case_match eqn:Ht; [by apply truthy_defined|done].
Qed.

Lemma jsonify_created_record (u : jsval) (c e : string) (d : jsval) :
  u ≠ VUndefined → d ≠ VUndefined →
  jsonify_obj (created_record u c e d) = created_record u c e d.
Proof.
  intros Hu Hd. unfold created_record.
  rewrite !jsonify_obj_insert by done. do 5 f_equal.
  unfold jsonify_obj. by rewrite map_filter_singleton_True.
Qed.

(** What a successful [POST /api/keys] leaves in the store. *)
Lemma post_api_keys_stored (req : request) (w w' : World) (b : payload) :
  post_api_keys req w = (Ok (Json 200 b), w') →
  let userId := requested_userId req w in
  let apiKey := hex (entropy w <$> seq (drawn (after_userId req w)) 16) in
  let expiresAt :=
    toISOString (UTC (LocalTime (clock w (S (ticks w)))
                      + API_KEY_EXPIRATION_DAYS * msPerDay)) in
  ∃ apiKeys record,
    store w API_KEYS_FILE = Ok apiKeys
    ∧ store w' API_KEYS_FILE = Ok (<[apiKey := record]> apiKeys)
    ∧ record !! "userId" = Some userId
    ∧ record !! "createdAt" = Some (VStr (toISOString (clock w (ticks w))))
    ∧ record !! "expiresAt" = Some (VStr expiresAt)
    ∧ record !! "lastUsed" = Some VNull
    ∧ record !! "revoked" = Some (VBool false).
Proof.
  rewrite post_api_keys_run. cbv zeta.
  destruct (store w API_KEYS_FILE) as [apiKeys|e] eqn:Hs; [|done].
  case_bool_decide; [done|]. intros Hrun.
  eexists apiKeys, _. split; [done|].
  assert (w' = set_fs
            (<[API_KEYS_FILE :=
                 File (JSON_stringify
                   (<[hex (entropy w <$> seq (drawn (after_userId req w)) 16)
                      := created_record (requested_userId req w)
                           (toISOString (clock w (ticks w)))
                           (toISOString
                              (setDate_getDate_plus (clock w (S (ticks w)))
                                 API_KEY_EXPIRATION_DAYS))
                           (js_or (lookup_chain (prototype w) (body req)
                                                "description") VNull)]>
                      apiKeys))]> (fs w))
            (set_ticks (S (S (ticks w)))
               (set_drawn (drawn (after_userId req w) + 16)
                          (after_userId req w)))) as ->.
  { destruct (fs w !! API_KEYS_FILE) as [[data|c]|]; by simplify_eq. }
  split.
  { rewrite store_eq. autorewrite with world. rewrite lookup_insert_eq.
    rewrite JSON_parse_stringify, jsonify_insert.
    rewrite (store_defined _ _ _ Hs).
    rewrite jsonify_created_record;
      [done|apply requested_userId_defined|apply js_or_null_defined]. }
  unfold created_record. by simplify_map_eq.
Qed.

(** C3, as amended. When [POST /api/keys] succeeds, the key it returns is
    the hexadecimal of the next 16 random bytes, 32 characters of [0-9a-f];
    the response holds that key, the [userId] (the body's when it is
    truthy, or else the hexadecimal of 8 random bytes) and [expiresAt];
    the store then holds under the key a record with that [userId], with
    [revoked = false], [lastUsed = null], [createdAt] the first reading of
    the clock, and [expiresAt] 30 days of local time after the second
    reading of the clock, which is exactly 30 days after that reading when
    the host's offset from UTC is fixed. *)
Theorem post_api_keys_created (req : request) (w w' : World) (b : payload) :
  post_api_keys req w = (Ok (Json 200 b), w') →
  let userId := requested_userId req w in
  let bytes := entropy w <$> seq (drawn (after_userId req w)) 16 in
  let apiKey := hex bytes in
  let createdAt := clock w (ticks w) in
  let reckoned := clock w (S (ticks w)) in
  let expiresAt :=
    toISOString (UTC (LocalTime reckoned
                      + API_KEY_EXPIRATION_DAYS * msPerDay)) in
  (length bytes = 16%nat ∧ String.length apiKey = 32%nat
   ∧ all_chars is_lower_hex_digit apiKey = true)
  ∧ b = Object {[ "apiKey" := VStr apiKey; "userId" := userId;
                  "expiresAt" := VStr expiresAt ]}
  ∧ (∃ apiKeys record,
       store w API_KEYS_FILE = Ok apiKeys
       ∧ store w' API_KEYS_FILE = Ok (<[apiKey := record]> apiKeys)
       ∧ record !! "userId" = Some userId
       ∧ record !! "createdAt" = Some (VStr (toISOString createdAt))
       ∧ record !! "expiresAt" = Some (VStr expiresAt)
       ∧ record !! "lastUsed" = Some VNull
       ∧ record !! "revoked" = Some (VBool false))
  ∧ (∀ offset, (∀ t, LocalTime t = t + offset) → (∀ t, UTC t = t - offset) →
       expiresAt
       = toISOString (reckoned + API_KEY_EXPIRATION_DAYS * msPerDay)).
Proof.
  intros Hrun. pose proof (post_api_keys_stored _ _ _ _ Hrun) as Hstored.
  revert Hrun. rewrite post_api_keys_run. cbv zeta.
  destruct (store w API_KEYS_FILE) as [apiKeys|e] eqn:Hs; [|done].
  case_bool_decide; [done|].
  assert (Hlen : length (entropy w <$> seq (drawn (after_userId req w)) 16)
                 = 16%nat) by by rewrite length_fmap, length_seq.
  intros Hrun. split; [|split; [|split]].
  - split; [done|]. split; [by rewrite hex_length, Hlen | apply hex_digits].
  - destruct (fs w !! API_KEYS_FILE) as [[data|c]|]; by simplify_eq.
  - exact Hstored.
  - intros offset HL HU. unfold setDate_getDate_plus.
    rewrite HU, HL. f_equal. lia.
Qed.

(** A key created under a fresh identifier adds one to the count of its
    user: five such creations reach the quota. *)
Lemma post_api_keys_counts (req : request) (w w' : World) (b : payload)
    (apiKeys : document) :
  post_api_keys req w = (Ok (Json 200 b), w') →
  store w API_KEYS_FILE = Ok apiKeys →
  apiKeys !! hex (entropy w <$> seq (drawn (after_userId req w)) 16) = None →
  ∃ apiKeys',
    store w' API_KEYS_FILE = Ok apiKeys'
    ∧ user_key_count (prototype w) apiKeys' (requested_userId req w)
      = S (user_key_count (prototype w) apiKeys (requested_userId req w)).
Proof.
  intros Hrun Hs Hfresh.
  destruct (post_api_keys_stored _ _ _ _ Hrun)
    as (apiKeys0 & record & Hs0 & Hs' & Hu & _).
  assert (apiKeys0 = apiKeys) as -> by congruence.
  eexists. split; [exact Hs'|]. unfold user_key_count.
  rewrite map_filter_insert_True by (simpl; by apply lookup_chain_own).
  apply map_size_insert_None. by apply map_lookup_filter_None_2; left.
Qed.
End Created.

(** User [u1]'s first key. *)
Lemma post_api_keys_created_witness :
  let w' := (post_api_keys u1_asks (after_keys 0)).2 in
  ∃ (apiKeys : document) (record : obj),
    store (after_keys 0) API_KEYS_FILE = Ok apiKeys
    ∧ store w' API_KEYS_FILE
      = Ok (<["000102030405060708090a0b0c0d0e0f" := record]> apiKeys)
    ∧ record !! "userId" = Some (VStr "u1")
    ∧ record !! "createdAt" = Some (VStr "1970-01-01T00:00:00.000Z")
    ∧ record !! "expiresAt" = Some (VStr "1970-01-31T00:00:00.001Z")
    ∧ record !! "lastUsed" = Some VNull
    ∧ record !! "revoked" = Some (VBool false).
Proof.
  intros w'.
  refine (proj1 (proj2 (proj2
    (post_api_keys_created u1_asks (after_keys 0) w'
       (Object {[ "apiKey" := VStr "000102030405060708090a0b0c0d0e0f";
                  "userId" := VStr "u1";
                  "expiresAt" := VStr "1970-01-31T00:00:00.001Z" ]}) _)))).
  apply pair_eq; [by_computation|reflexivity].
Defined.

(** C3 as stated fails: the clock is read once for [createdAt] and once
    more for [expiresAt]. With a clock that reads 0 and then 1, the record
    is created at 0, the epoch, and expires 30 days and 1 millisecond
    after it. *)
Lemma post_api_keys_expiry_after_createdAt :
  let w' := (post_api_keys u1_asks (after_keys 0)).2 in
  ∃ (b : payload) (record : obj),
    (post_api_keys u1_asks (after_keys 0)).1 = Ok (Json 200 b)
    ∧ store w' API_KEYS_FILE
      = Ok {[ "000102030405060708090a0b0c0d0e0f" := record ]}
    ∧ record !! "createdAt" = Some (VStr (@toISOString reference 0))
    ∧ record !! "expiresAt"
      ≠ Some (VStr (@toISOString reference
                      (0 + API_KEY_EXPIRATION_DAYS * msPerDay))).
Proof.
  intros w'.
  exists (Object {[ "apiKey" := VStr "000102030405060708090a0b0c0d0e0f";
                    "userId" := VStr "u1";
                    "expiresAt" := VStr "1970-01-31T00:00:00.001Z" ]}),
         (created_record (VStr "u1") "1970-01-01T00:00:00.000Z"
            "1970-01-31T00:00:00.001Z" VNull).
  repeat split; by_computation.
Qed.

(** ** C4, C5 and C6: shortening and resolving *)

Section Shorten.
Context `{Runtime}.

Lemma shorten_run (a : authenticated) (w : World) :
  shorten a w =
  let url := lookup_chain (prototype w) (body (req a)) "url" in
  if negb (truthy url) || negb (isValidUrl url) then (Ok InvalidURL, w)
  else
    let w1 := set_ticks (S (ticks w)) (set_drawn (drawn w + 4) w) in
    match store w URLS_FILE with
    | Throw _ => (Ok (error 500 "Error shortening URL"), w)
    | Ok urls =>
        let shortUrl := hex (entropy w <$> seq (drawn w) 4) in
        let record :=
          {[ "originalUrl" := url; "userId" := userId a;
             "createdAt" := VStr (toISOString (clock w (ticks w))) ]} in
        match fs w !! URLS_FILE with
        | Some (Fault _) => (Ok (error 500 "Error shortening URL"), w1)
        | _ =>
            (Ok (Json 200 (Object
                   {[ "shortUrl" := VStr (protocol (req a) +:+ "://"
                                          +:+ ToString (host (req a)) +:+ "/"
                                          +:+ shortUrl);
                      "originalUrl" := url ]})),
             set_fs (<[URLS_FILE :=
                         File (JSON_stringify (<[shortUrl := record]> urls))]>
                       (fs w)) w1)
        end
    end.
Proof.
  unfold shorten, try_catch, generateShortUrl. exec. cbv zeta.
  case_match; [done|]. exec.
  destruct (store w URLS_FILE) as [urls|e]; [|done]. exec.
  autorewrite with world.
  by destruct (fs w !! URLS_FILE) as [[data|c]|].
Qed.
End Shorten.

Section Resolve.
Context `{Runtime}.

Lemma get_shortUrl_run (shortUrl : string) (w : World) :
  get_shortUrl shortUrl w =
  (match store w URLS_FILE with
   | Throw _ => Ok (error 500 "Error redirecting to URL")
   | Ok urls =>
       match index (prototype w) urls shortUrl with
       | None => Ok NotFound
       | Some r => Ok (Redirect (lookup_chain (prototype w) (props_of w urls r)
                                              "originalUrl"))
       end
   end, w).
Proof.
  unfold get_shortUrl, try_catch. exec.
  destruct (store w URLS_FILE) as [urls|e]; [|done]. exec.
  destruct (index _ urls shortUrl); by exec.
Qed.

Lemma validateApiKey_frame (req0 : request) (w : World) :
  ∃ g w1, validateApiKey req0 w = (Ok g, w1)
    ∧ drawn w1 = drawn w ∧ entropy w1 = entropy w
    ∧ fs w1 !! URLS_FILE = fs w !! URLS_FILE
    ∧ match g with
      | Responded r => ∃ s m, r = error s m ∧ s ≠ 200
      | Next a => req a = req0
      end.
Proof.
  unfold validateApiKey.
  destruct (x_api_key req0) as [k|]; [|by eexists _, _; eauto 10].
  destruct (negb (truthy (VStr k))); [by eexists _, _; eauto 10|].
  unfold try_catch. exec.
  destruct (store w API_KEYS_FILE) as [apiKeys|e]; [|by eexists _, _; eauto 10].
  exec.
  destruct (index _ apiKeys k) as [r|]; [|by eexists _, _; eauto 10].
  exec.
  destruct (truthy (lookup_chain _ _ "revoked"));
    [by eexists _, _; eauto 10|].
  exec.
  destruct (Date_lt _ _); [by eexists _, _; eauto 10|]. exec.
  autorewrite with world.
  destruct (fs w !! API_KEYS_FILE) as [[data|c]|];
    exec; eexists _, _; (split; [reflexivity|]); autorewrite with world;
    repeat split; eauto; by rewrite lookup_insert_ne.
Qed.
End Resolve.

Section Shorten_props.
Context `{Runtime}.

(** C4, as amended. A request that passed the gate is answered
    [InvalidURL] (400) if and only if its [url] is falsy (missing, [null],
    empty) or [new URL(url)] throws, and then nothing is written: the world
    is as before. ["not-a-url"] is rejected and ["https://example.com/x"]
    is accepted; the parser asks for a scheme, and for a host only in a
    special scheme, so that ["mailto:a@b.c"] is accepted without a host. *)
Theorem shorten_InvalidURL (a : authenticated) (w : World) :
  let url := lookup_chain (prototype w) (body (req a)) "url" in
  ((shorten a w).1 = Ok InvalidURL
   ↔ truthy url = false ∨ URL.parse (ToString url) = None)
  ∧ ((shorten a w).1 = Ok InvalidURL → (shorten a w).2 = w)
  ∧ isValidUrl (VStr "not-a-url") = false
  ∧ isValidUrl (VStr "https://example.com/x") = true
  ∧ URL.parse "https://example.com/x"
    = Some {| URL.scheme := "https";
              URL.url_host := Some (URL.Domain "example.com") |}
  ∧ URL.parse "mailto:a@b.c"
    = Some {| URL.scheme := "mailto"; URL.url_host := None |}.
Proof.
  cbv zeta. rewrite shorten_run. cbv zeta.
  generalize (lookup_chain (prototype w) (body (req a)) "url"). intros url.
  assert (Hvalid : isValidUrl url = false ↔ URL.parse (ToString url) = None).
  { unfold isValidUrl. destruct (URL.parse (ToString url)); naive_solver. }
  split; [|split; [|by repeat split]].
  - destruct (truthy url) eqn:Ht, (isValidUrl url) eqn:Hv; simpl.
    + split.
      * destruct (store w URLS_FILE); [|done].
        by destruct (fs w !! URLS_FILE) as [[data|c]|].
      * intros [?|Hp]; [done|]. apply Hvalid in Hp. congruence.
    + split; [|done]. intros _. right. by apply Hvalid.
    + split; [|done]. intros _. by left.
    + split; [|done]. intros _. by left.
  - destruct (negb (truthy url) || negb (isValidUrl url)); [done|].
    destruct (store w URLS_FILE); [|done].
    by destruct (fs w !! URLS_FILE) as [[data|c]|].
Qed.

Lemma post_api_shorten_ok (req0 : request) (w w' : World) (b : payload)
    (u : string) :
  body req0 !! "url" = Some (VStr u) →
  post_api_shorten req0 w = (Ok (Json 200 b), w') →
  let id := hex (entropy w <$> seq (drawn w) 4) in
  isValidUrl (VStr u) = true
  ∧ b = Object {[ "shortUrl" := VStr (protocol req0 +:+ "://"
                                      +:+ ToString (host req0) +:+ "/" +:+ id);
                  "originalUrl" := VStr u ]}
  ∧ drawn w' = (drawn w + 4)%nat ∧ entropy w' = entropy w
  ∧ ∃ urls record,
      store w URLS_FILE = Ok urls
      ∧ store w' URLS_FILE = Ok (<[id := record]> urls)
      ∧ record !! "originalUrl" = Some (VStr u).
Proof.
  intros Hu. unfold post_api_shorten. rewrite bind_run.
  destruct (validateApiKey_frame req0 w)
    as (g & w1 & -> & Hd & He & Hf & Hg).
  destruct g as [r|a].
  { destruct Hg as (s & m & -> & Hs). rewrite mret_run. by intros [= -> _]. }
  rewrite shorten_run. cbv zeta. rewrite Hg.
  rewrite (lookup_chain_own _ _ _ _ Hu), Hd, He.
  assert (Hstore : store w1 URLS_FILE = store w URLS_FILE)
    by by rewrite !store_eq, Hf.
  rewrite Hstore, Hf.
  destruct (isValidUrl (VStr u)) eqn:Hv;
    [|by rewrite orb_true_r; intros [= ?]].
  destruct (negb (truthy (VStr u))); [by intros [= ?]|]. cbn [orb negb].
  destruct (store w URLS_FILE) as [urls|e] eqn:Hs; [|by intros [= ?]].
  destruct (fs w1 !! URLS_FILE) as [[data|c]|] eqn:Hfile; rewrite <- Hf;
    [|by intros [= ?]|]; intros [= <- <-];
    autorewrite with world; (do 4 (split; [done|]));
    eexists urls, _; (split; [done|]);
    (split;
     [ rewrite store_eq; autorewrite with world;
       rewrite lookup_insert_eq, JSON_parse_stringify, jsonify_insert;
       by rewrite (store_defined _ _ _ Hs)
     | apply jsonify_obj_lookup; split; [by simplify_map_eq|done] ]).
Qed.

Lemma get_shortUrl_stored (id : string) (record : obj) (urls : document)
    (w : World) (v : jsval) :
  store w URLS_FILE = Ok urls → urls !! id = Some record →
  record !! "originalUrl" = Some v →
  get_shortUrl id w = (Ok (Redirect v), w).
Proof.
  intros Hs Hid Hv. rewrite get_shortUrl_run, Hs. unfold index.
  rewrite Hid. cbn [props_of]. rewrite Hid. cbn [default].
  by rewrite (lookup_chain_own _ _ _ _ Hv).
Qed.

(** C5. When [POST /api/shorten] succeeds for the URL string [u], the
    short URL it returns ends in the hexadecimal of the next four random
    bytes, and [GET] on that identifier right after redirects to exactly
    [u]. *)
Theorem shorten_then_resolve (req0 : request) (w w' : World) (b : payload)
    (u : string) :
  body req0 !! "url" = Some (VStr u) →
  post_api_shorten req0 w = (Ok (Json 200 b), w') →
  let id := hex (entropy w <$> seq (drawn w) 4) in
  isValidUrl (VStr u) = true
  ∧ b = Object {[ "shortUrl" := VStr (protocol req0 +:+ "://"
                                      +:+ ToString (host req0) +:+ "/" +:+ id);
                  "originalUrl" := VStr u ]}
  ∧ get_shortUrl id w' = (Ok (Redirect (VStr u)), w').
Proof.
  intros Hu Hrun id.
  destruct (post_api_shorten_ok _ _ _ _ _ Hu Hrun)
    as (Hv & Hb & _ & _ & urls & record & _ & Hs & Hr).
  do 2 (split; [done|]).
  eapply get_shortUrl_stored; [done| |done]. apply lookup_insert_eq.
Qed.

(** C6, as amended. Two successful [POST /api/shorten] in a row, with the
    same URL and the same key, return the identifiers that the generator's
    next two draws of four bytes encode: they are distinct exactly when
    the two draws differ, and both resolve to the URL afterwards. *)
Theorem shorten_twice (req0 : request) (w w1 w2 : World) (b1 b2 : payload)
    (u : string) :
  body req0 !! "url" = Some (VStr u) →
  post_api_shorten req0 w = (Ok (Json 200 b1), w1) →
  post_api_shorten req0 w1 = (Ok (Json 200 b2), w2) →
  let bytes1 := entropy w <$> seq (drawn w) 4 in
  let bytes2 := entropy w <$> seq (drawn w + 4) 4 in
  let shortUrl id := VStr (protocol req0 +:+ "://" +:+ ToString (host req0)
                           +:+ "/" +:+ id) in
  b1 = Object {[ "shortUrl" := shortUrl (hex bytes1);
                 "originalUrl" := VStr u ]}
  ∧ b2 = Object {[ "shortUrl" := shortUrl (hex bytes2);
                   "originalUrl" := VStr u ]}
  ∧ (hex bytes1 ≠ hex bytes2 ↔ bytes1 ≠ bytes2)
  ∧ get_shortUrl (hex bytes1) w2 = (Ok (Redirect (VStr u)), w2)
  ∧ get_shortUrl (hex bytes2) w2 = (Ok (Redirect (VStr u)), w2).
Proof.
  intros Hu Hrun1 Hrun2. cbv zeta.
  destruct (post_api_shorten_ok _ _ _ _ _ Hu Hrun1)
    as (_ & Hb1 & Hd & He & urls & r1 & _ & Hs1 & Hr1).
  destruct (post_api_shorten_ok _ _ _ _ _ Hu Hrun2)
    as (_ & Hb2 & _ & _ & urls1 & r2 & Hs1' & Hs2 & Hr2).
  rewrite Hd, He in Hb2, Hs2. rewrite Hs1 in Hs1'.
  assert (urls1 = <[hex (entropy w <$> seq (drawn w) 4) := r1]> urls) as ->
    by congruence.
  do 2 (split; [done|]). split.
  { split; [congruence|]. intros Hne Heq. by apply Hne, hex_inj. }
  split;
    [|apply (get_shortUrl_stored _ r2 _ _ _ Hs2); [apply lookup_insert_eq|done]].
  destruct (decide (hex (entropy w <$> seq (drawn w) 4)
                    = hex (entropy w <$> seq (drawn w + 4) 4))) as [Heq|Hne].
  - apply (get_shortUrl_stored _ r2 _ _ _ Hs2); [|done]. rewrite Heq.
    apply lookup_insert_eq.
  - apply (get_shortUrl_stored _ r1 _ _ _ Hs2); [|done].
    rewrite lookup_insert_ne by done. apply lookup_insert_eq.
Qed.
End Shorten_props.

(** ["not-a-url"] is refused. *)
Lemma shorten_InvalidURL_witness :
  (shorten {| req := asks_to_shorten "not-a-url"; userId := VStr "u1";
              apiKey := "k1" |} (with_key counting)).1
  = Ok InvalidURL.
Proof.
  refine (proj2 (proj1 (shorten_InvalidURL _ (with_key counting))) _).
  right. by_computation.
Defined.

(** C4 as stated fails: ["mailto:a@b.c"] does not parse as a URL with a
    scheme and a host, since it has no host, and yet it is shortened and
    stored. *)
Lemma shorten_accepts_mailto :
  let a := {| req := asks_to_shorten "mailto:a@b.c"; userId := VStr "u1";
              apiKey := "k1" |} in
  ¬ has_scheme_and_host (H := reference) "mailto:a@b.c"
  ∧ (shorten a (with_key counting)).1
    = Ok (Json 200 (Object
            {[ "shortUrl" := VStr "http://localhost:3000/00010203";
               "originalUrl" := VStr "mailto:a@b.c" ]}))
  ∧ store (shorten a (with_key counting)).2 URLS_FILE
    = Ok {[ "00010203" := {[ "originalUrl" := VStr "mailto:a@b.c";
                             "userId" := VStr "u1";
                             "createdAt" := VStr "1970-01-01T00:00:00.000Z" ]} ]}.
Proof.
  intros a. split; [|split; by_computation].
  intros (r & Hr & _ & Hhost).
  assert (Hp : URL.parse (H := reference) "mailto:a@b.c"
               = Some {| URL.scheme := "mailto"; URL.url_host := None |})
    by (vm_compute; reflexivity).
  rewrite Hp in Hr. injection Hr as <-. by destruct Hhost.
Qed.

(** ["https://example.com/x"] is shortened to [00010203], which resolves
    to it. *)
Lemma shorten_then_resolve_witness :
  let w' := (post_api_shorten (asks_to_shorten "https://example.com/x")
                              (with_key counting)).2 in
  get_shortUrl "00010203" w'
  = (Ok (Redirect (VStr "https://example.com/x")), w').
Proof.
  intros w'.
  refine (proj2 (proj2
    (shorten_then_resolve (asks_to_shorten "https://example.com/x")
       (with_key counting) w'
       (Object {[ "shortUrl" := VStr "http://localhost:3000/00010203";
                  "originalUrl" := VStr "https://example.com/x" ]})
       "https://example.com/x" _ _))).
  - by_computation.
  - apply pair_eq; [by_computation|reflexivity].
Defined.

(** Shortening ["https://example.com/x"] twice gives [00010203] and
    [04050607], which both resolve to it. *)
Lemma shorten_twice_witness :
  let req := asks_to_shorten "https://example.com/x" in
  let w1 := (post_api_shorten req (with_key counting)).2 in
  let w2 := (post_api_shorten req w1).2 in
  get_shortUrl "00010203" w2 = (Ok (Redirect (VStr "https://example.com/x")), w2)
  ∧ get_shortUrl "04050607" w2
    = (Ok (Redirect (VStr "https://example.com/x")), w2).
Proof.
  intros req w1 w2.
  refine (proj2 (proj2 (proj2
    (shorten_twice req (with_key counting) w1 w2
       (Object {[ "shortUrl" := VStr "http://localhost:3000/00010203";
                  "originalUrl" := VStr "https://example.com/x" ]})
       (Object {[ "shortUrl" := VStr "http://localhost:3000/04050607";
                  "originalUrl" := VStr "https://example.com/x" ]})
       "https://example.com/x" _ _ _)))).
  - by_computation.
  - apply pair_eq; [by_computation|reflexivity].
  - apply pair_eq; [by_computation|reflexivity].
Defined.

(** C6 as stated fails: when the generator draws the same four bytes
    twice, both calls succeed and return the same identifier, and the
    second record takes the place of the first. *)
Lemma shorten_twice_same_identifier :
  let req := asks_to_shorten "https://example.com/x" in
  let first := post_api_shorten req (with_key (λ _, Byte.x00)) in
  let second := post_api_shorten req first.2 in
  let b := Object {[ "shortUrl" := VStr "http://localhost:3000/00000000";
                     "originalUrl" := VStr "https://example.com/x" ]} in
  first.1 = Ok (Json 200 b) ∧ second.1 = Ok (Json 200 b)
  ∧ store first.2 URLS_FILE
    = Ok {[ "00000000" := {[ "originalUrl" := VStr "https://example.com/x";
                             "userId" := VStr "u1";
                             "createdAt" := VStr "1970-01-01T00:00:00.002Z" ]} ]}
  ∧ store second.2 URLS_FILE
    = Ok {[ "00000000" := {[ "originalUrl" := VStr "https://example.com/x";
                             "userId" := VStr "u1";
                             "createdAt" := VStr "1970-01-01T00:00:00.005Z" ]} ]}.
Proof. intros req first second b. repeat split; by_computation. Qed.

(** ** C9: records are never deleted *)

Section Growth.
Context `{Runtime}.

Lemma grows_same_fs (w w' : World) : fs w' = fs w → grows w w'.
Proof.
  intros E path d Hd. exists d. split; [|done].
  by rewrite (store_same_fs w w').
Qed.

Lemma grows_refl (w : World) : grows w w.
Proof. by apply grows_same_fs. Qed.

Lemma grows_trans (w1 w2 w3 : World) : grows w1 w2 → grows w2 w3 → grows w1 w3.
Proof.
  intros H12 H23 path d Hd.
  destruct (H12 _ _ Hd) as (d2 & Hd2 & Hs2).
  destruct (H23 _ _ Hd2) as (d3 & Hd3 & Hs3).
  exists d3. split; [done|]. set_solver.
Qed.

Lemma grows_write (w w' : World) (p : string) (d d' : document) :
  store w p = Ok d → dom d ⊆ dom d' →
  fs w' = <[p := File (JSON_stringify d')]> (fs w) → grows w w'.
Proof.
  intros Hd Hsub Hfs path d0 Hd0. destruct (decide (path = p)) as [->|Hne].
  - exists (jsonify d'). rewrite store_eq, Hfs, lookup_insert_eq.
    rewrite JSON_parse_stringify. split; [done|].
    rewrite dom_jsonify. by assert (d0 = d) as -> by congruence.
  - exists d0. split; [|done].
    rewrite store_eq, Hfs, lookup_insert_ne by done. by rewrite <- store_eq.
Qed.

Lemma post_api_keys_grows (req0 : request) (w : World) :
  grows w (post_api_keys req0 w).2.
Proof.
  rewrite post_api_keys_run. cbv zeta.
  assert (Hfs : fs (after_userId req0 w) = fs w).
  { unfold after_userId. by case_match. }
  destruct (store w API_KEYS_FILE) as [apiKeys|e] eqn:Hs;
    [|by apply grows_same_fs].
  case_bool_decide; [by apply grows_same_fs|].
  destruct (fs w !! API_KEYS_FILE) as [[data|c]|];
    [|by apply grows_same_fs|];
    (eapply grows_write; [done| |reflexivity]);
    rewrite dom_insert_L; set_solver.
Qed.

Lemma get_api_keys_grows (u : string) (w : World) :
  grows w (get_api_keys u w).2.
Proof.
  unfold get_api_keys, try_catch. exec.
  destruct (store w API_KEYS_FILE); exec; apply grows_refl.
Qed.

Lemma get_shortUrl_grows (s : string) (w : World) :
  grows w (get_shortUrl s w).2.
Proof. rewrite get_shortUrl_run. apply grows_refl. Qed.

Lemma delete_api_keys_grows (k : string) (w : World) :
  grows w (delete_api_keys k w).2.
Proof.
  unfold delete_api_keys, try_catch. exec.
  destruct (store w API_KEYS_FILE) as [apiKeys|e] eqn:Hs; [|apply grows_refl].
  exec. destruct (index _ apiKeys k) as [r|]; [|apply grows_refl]. exec.
  autorewrite with world.
  destruct (fs w !! API_KEYS_FILE) as [[data|c]|]; exec; cbn [snd];
    [|by apply grows_same_fs; autorewrite with world|];
    (eapply grows_write; [done| |by autorewrite with world]);
    by rewrite !dom_doc_after_set.
Qed.

Lemma patch_api_keys_grows (k : string) (req0 : request) (w : World) :
  grows w (patch_api_keys k req0 w).2.
Proof.
  unfold patch_api_keys, try_catch. exec.
  destruct (store w API_KEYS_FILE) as [apiKeys|e] eqn:Hs; [|apply grows_refl].
  exec. destruct (index _ apiKeys k) as [r|]; [|apply grows_refl]. exec.
  autorewrite with world.
  destruct (fs w !! API_KEYS_FILE) as [[data|c]|]; exec; cbn [snd];
    [|by apply grows_same_fs; autorewrite with world|];
    (eapply grows_write; [done| |by autorewrite with world]);
    by rewrite !dom_doc_after_set.
Qed.

Lemma validateApiKey_grows (req0 : request) (w : World) :
  grows w (validateApiKey req0 w).2.
Proof.
  unfold validateApiKey.
  destruct (x_api_key req0) as [k|]; [|apply grows_refl].
  destruct (negb (truthy (VStr k))); [apply grows_refl|].
  unfold try_catch. exec.
  destruct (store w API_KEYS_FILE) as [apiKeys|e] eqn:Hs; [|apply grows_refl].
  exec. destruct (index _ apiKeys k) as [r|]; [|apply grows_refl].
  exec.
  destruct (truthy (lookup_chain _ _ "revoked")); [apply grows_refl|].
  exec.
  destruct (Date_lt _ _); [by apply grows_same_fs|]. exec.
  autorewrite with world.
  destruct (fs w !! API_KEYS_FILE) as [[data|c]|]; exec; cbn [snd];
    [|by apply grows_same_fs; autorewrite with world|];
    (eapply grows_write; [done| |by autorewrite with world]);
    by rewrite !dom_doc_after_set.
Qed.

Lemma shorten_grows (a : authenticated) (w : World) :
  grows w (shorten a w).2.
Proof.
  rewrite shorten_run. cbv zeta.
  case_match; [apply grows_refl|].
  destruct (store w URLS_FILE) as [urls|e] eqn:Hs; [|apply grows_refl].
  destruct (fs w !! URLS_FILE) as [[data|c]|];
    [|by apply grows_same_fs|];
    (eapply grows_write; [done| |reflexivity]);
    rewrite dom_insert_L; set_solver.
Qed.

Lemma post_api_shorten_grows (req0 : request) (w : World) :
  grows w (post_api_shorten req0 w).2.
Proof.
  unfold post_api_shorten. rewrite bind_run.
  pose proof (validateApiKey_grows req0 w) as Hv.
  destruct (validateApiKey req0 w) as [[[r|a]|e] w1]; simpl in Hv;
    [done| |done].
  eapply grows_trans; [done|]. apply shorten_grows.
Qed.

(** C9. Whatever the operation, an identifier that a store holds before
    it is held by the same store after it: the handlers add records and
    change records, and delete none. *)
Theorem records_never_deleted (op : operation) (w : World) (path k : string)
    (d : document) :
  store w path = Ok d → k ∈ dom d →
  ∃ d', store (perform op w) path = Ok d' ∧ k ∈ dom d'.
Proof.
  intros Hd Hk.
  assert (Hg : grows w (perform op w)).
  { destruct op; simpl.
    - apply post_api_keys_grows.
    - apply get_api_keys_grows.
    - apply delete_api_keys_grows.
    - apply patch_api_keys_grows.
    - apply validateApiKey_grows.
    - apply post_api_shorten_grows.
    - apply get_shortUrl_grows. }
  destruct (Hg _ _ Hd) as (d' & Hd' & Hsub). exists d'. split; [done|].
  set_solver.
Qed.
End Growth.

(** Revoking [k1] keeps [k1] in the store. *)
Lemma records_never_deleted_witness :
  ∃ d', store (perform (Revoke "k1") (with_key counting)) API_KEYS_FILE
        = Ok d'
        ∧ "k1" ∈ dom d'.
Proof.
  refine (records_never_deleted (Revoke "k1") (with_key counting)
            API_KEYS_FILE "k1" {[ "k1" := a_key ]} _ _); by_computation.
Defined.

(** ** C10 and C7: updating a description, resolving *)

Section Update.
Context `{Runtime}.

Lemma jsonify_obj_fixed_lookup (r : obj) (p : string) (v : jsval) :
  jsonify_obj r = r → r !! p = Some v → v ≠ VUndefined.
Proof.
  intros Hr Hp. rewrite <- Hr in Hp. by apply jsonify_obj_lookup in Hp as [_ ?].
Qed.

Lemma jsonify_obj_insert_ne (r : obj) (p q : string) (v : jsval) :
  jsonify_obj r = r → p ≠ q → jsonify_obj (<[p := v]> r) !! q = r !! q.
Proof.
  intros Hr Hne. apply option_eq. intros x.
  rewrite jsonify_obj_lookup, lookup_insert_ne by done.
  split; [by intros []|]. intros Hq. split; [done|].
  by eapply jsonify_obj_fixed_lookup.
Qed.

Lemma jsonify_obj_insert_eq (r : obj) (p : string) (v : jsval) :
  jsonify_obj (<[p := v]> r) !! p = if decide (v = VUndefined) then None else Some v.
Proof.
  apply option_eq. intros x. rewrite jsonify_obj_lookup, lookup_insert_eq.
  case_decide as Hv; [subst v|]; (split; [intros [[= <-] Hx]|intros [= <-]]);
    done.
Qed.

(** C10. [PATCH /api/keys/:apiKey] on a stored key leaves the store with
    the record's [description] set to the body's (absent when the body has
    none) and its [updatedAt] set to the reading of the clock; every other
    field of the record, every other record, and the URL store are as
    before. *)
Theorem patch_api_keys_frame (apiKey : string) (req0 : request) (w : World)
    (apiKeys : document) (r : obj) :
  store w API_KEYS_FILE = Ok apiKeys → apiKeys !! apiKey = Some r →
  let w' := (patch_api_keys apiKey req0 w).2 in
  let description := lookup_chain (prototype w) (body req0) "description" in
  ∃ apiKeys' r',
    store w' API_KEYS_FILE = Ok apiKeys'
    ∧ apiKeys' !! apiKey = Some r'
    ∧ r' !! "description"
      = (if decide (description = VUndefined) then None else Some description)
    ∧ r' !! "updatedAt" = Some (VStr (toISOString (clock w (ticks w))))
    ∧ (∀ p, p ≠ "description" → p ≠ "updatedAt" → r' !! p = r !! p)
    ∧ (∀ k, k ≠ apiKey → apiKeys' !! k = apiKeys !! k)
    ∧ fs w' !! URLS_FILE = fs w !! URLS_FILE
    ∧ store w' URLS_FILE = store w URLS_FILE.
Proof.
  intros Hs Hr. cbv zeta.
  destruct (store_record_file _ _ _ _ _ Hs Hr) as [data Hfile].
  pose proof (store_defined _ _ _ Hs) as Hd.
  pose proof (jsonify_record _ _ _ Hd Hr) as Hjr.
  unfold patch_api_keys, try_catch. exec. rewrite Hs. exec. unfold index.
  rewrite Hr. exec. autorewrite with world. rewrite Hfile. exec.
  cbn [snd doc_after_set world_after_set copy_of props_of].
  rewrite (alter_record apiKeys _ r) by done.
  rewrite (alter_record _ _
             (<["description" :=
                  lookup_chain (prototype w) (body req0) "description"]> r))
    by apply lookup_insert_eq.
  rewrite insert_insert_eq.
  eexists _, _. split.
  { rewrite store_eq. autorewrite with world. rewrite lookup_insert_eq.
    rewrite JSON_parse_stringify, jsonify_insert, Hd. reflexivity. }
  split; [apply lookup_insert_eq|].
  split.
  { rewrite jsonify_obj_insert by done. rewrite lookup_insert_ne by done.
    apply jsonify_obj_insert_eq. }
  split.
  { rewrite jsonify_obj_insert by done. apply lookup_insert_eq. }
  split.
  { intros p Hp1 Hp2. rewrite jsonify_obj_insert by done.
    rewrite lookup_insert_ne by done. by apply jsonify_obj_insert_ne. }
  split.
  { intros k Hk. by rewrite lookup_insert_ne. }
  assert (Hu : ∀ data' : text,
             <[API_KEYS_FILE := File data']> (fs w) !! URLS_FILE
             = fs w !! URLS_FILE)
    by (intros data'; by rewrite lookup_insert_ne).
  autorewrite with world. split; [apply Hu|].
  rewrite !store_eq. autorewrite with world. by rewrite Hu.
Qed.

(** C7, on the code. [GET /:shortUrl] answers [NotFound] (404) for an
    identifier the store does not hold, unless the identifier is a name
    objects inherit; it redirects to the stored [originalUrl] for an
    identifier the store holds; and for an inherited name the store does
    not hold it redirects instead of answering [NotFound]: for a name that
    [Object.prototype] has from the start, to whatever [originalUrl] the
    built-in object of that name has, and for a name under which an
    earlier request has put a truthy value on [Object.prototype], to
    whatever [originalUrl] every object inherits. *)
Theorem get_shortUrl_spec (shortUrl : string) (w : World) (urls : document) :
  store w URLS_FILE = Ok urls →
  (urls !! shortUrl = None → shortUrl ∉ Object_prototype_names →
   prototype w !! shortUrl = None →
   get_shortUrl shortUrl w = (Ok NotFound, w))
  ∧ (∀ record originalUrl,
       urls !! shortUrl = Some record →
       record !! "originalUrl" = Some originalUrl →
       get_shortUrl shortUrl w = (Ok (Redirect originalUrl), w))
  ∧ (urls !! shortUrl = None → shortUrl ∈ Object_prototype_names →
     prototype w !! shortUrl = None →
     get_shortUrl shortUrl w
     = (Ok (Redirect (lookup_chain (prototype w)
                        (default ∅ (builtins w !! shortUrl)) "originalUrl")),
        w))
  ∧ (∀ v, urls !! shortUrl = None → prototype w !! shortUrl = Some v →
       truthy v = true →
       get_shortUrl shortUrl w
       = (Ok (Redirect (lookup_chain (prototype w) ∅ "originalUrl")), w)).
Proof.
  intros Hs. split; [|split; [|split]].
  - intros Hnone Hname Hproto. rewrite get_shortUrl_run, Hs. unfold index.
    by rewrite Hnone, Hproto, bool_decide_eq_false_2.
  - intros record v Hrec Hv. by eapply get_shortUrl_stored.
  - intros Hnone Hname Hproto. rewrite get_shortUrl_run, Hs. unfold index.
    by rewrite Hnone, Hproto, bool_decide_eq_true_2.
  - intros v Hnone Hproto Hv. rewrite get_shortUrl_run, Hs. unfold index.
    by rewrite Hnone, Hproto, Hv.
Qed.
End Update.

(** Describing [k1] leaves its owner and its revocation flag as they
    were. *)
Lemma patch_api_keys_frame_witness :
  let w' := (patch_api_keys "k1"
               (a_request None {[ "description" := VStr "mine" ]})
               (with_key counting)).2 in
  ∃ (apiKeys' : document) (r' : obj),
    store w' API_KEYS_FILE = Ok apiKeys'
    ∧ apiKeys' !! "k1" = Some r'
    ∧ r' !! "description" = Some (VStr "mine")
    ∧ r' !! "userId" = Some (VStr "u1")
    ∧ r' !! "revoked" = Some (VBool false).
Proof.
  intros w'.
  destruct (patch_api_keys_frame "k1"
              (a_request None {[ "description" := VStr "mine" ]})
              (with_key counting) {[ "k1" := a_key ]} a_key)
    as (apiKeys' & r' & Hs & Hr & Hd & _ & Hframe & _);
    [by_computation..|].
  exists apiKeys', r'. split; [exact Hs|]. split; [exact Hr|].
  split; [exact Hd|]. split.
  - rewrite Hframe; [by_computation|discriminate..].
  - rewrite Hframe; [by_computation|discriminate..].
Defined.

(** The failing input of C7: no URL was ever shortened, and
    [GET /constructor] redirects instead of answering [NotFound]. *)
Lemma get_shortUrl_constructor :
  let w := a_world ∅ Z.of_nat counting in
  store w URLS_FILE = Ok ∅
  ∧ (get_shortUrl "constructor" w).1 = Ok (Redirect VUndefined)
  ∧ (get_shortUrl "constructor" w).1 ≠ Ok NotFound.
Proof. intros w. repeat split; by_computation. Qed.

(** The same slip at the gate: with no key ever created, the key
    [constructor] passes [validateApiKey], with no [userId]. *)
Lemma validateApiKey_constructor :
  let w := a_world ∅ Z.of_nat counting in
  store w API_KEYS_FILE = Ok ∅
  ∧ (validateApiKey (a_request (Some "constructor") ∅) w).1
    = Ok (Next {| req := a_request (Some "constructor") ∅;
                  userId := VUndefined; apiKey := "constructor" |}).
Proof. intros w. repeat split; by_computation. Qed.

(** And with a name that a request has put on [Object.prototype]: with no
    key ever created, a request with the key [__proto__] passes and sets
    [lastUsed] on [Object.prototype], after which the key [lastUsed],
    which the store does not hold either, passes as well. *)
Lemma validateApiKey_lastUsed :
  let w := a_world ∅ Z.of_nat counting in
  let w' := (validateApiKey (a_request (Some "__proto__") ∅) w).2 in
  store w' API_KEYS_FILE = Ok ∅
  ∧ prototype w' !! "lastUsed" = Some (VStr "1970-01-01T00:00:00.001Z")
  ∧ (validateApiKey (a_request (Some "lastUsed") ∅) w').1
    = Ok (Next {| req := a_request (Some "lastUsed") ∅;
                  userId := VUndefined; apiKey := "lastUsed" |}).
Proof. intros w w'. repeat split; by_computation. Qed.

(** * Further properties of the routes *)

(** ** The routes as functions of the world *)

Section Normal_forms.
Context `{Runtime}.

Lemma validateApiKey_run (req0 : request) (w : World) :
  validateApiKey req0 w =
  match x_api_key req0 with
  | None => (Ok (Responded Unauthorized), w)
  | Some k =>
      if negb (truthy (VStr k)) then (Ok (Responded Unauthorized), w)
      else
        match store w API_KEYS_FILE with
        | Throw _ => (Ok (Responded (error 500 "Internal server error")), w)
        | Ok apiKeys =>
            match index (prototype w) apiKeys k with
            | None => (Ok (Responded InvalidKey), w)
            | Some r =>
                let props := props_of w apiKeys r in
                if truthy (lookup_chain (prototype w) props "revoked")
                then (Ok (Responded Revoked), w)
                else if Date_lt (Date_value (lookup_chain (prototype w) props
                                                          "expiresAt"))
                                (clock w (ticks w))
                then (Ok (Responded Expired), set_ticks (S (ticks w)) w)
                else
                  let lastUsed := VStr (toISOString (clock w (S (ticks w)))) in
                  let apiKeys' := doc_after_set apiKeys r "lastUsed" lastUsed in
                  let w1 := after_gate w r in
                  match fs w !! API_KEYS_FILE with
                  | Some (Fault _) =>
                      (Ok (Responded (error 500 "Internal server error")), w1)
                  | _ =>
                      let w2 := set_fs (<[API_KEYS_FILE :=
                                           File (JSON_stringify apiKeys')]>
                                          (fs w)) w1 in
                      (Ok (Next {| req := req0;
                                   userId := lookup_chain (prototype w2)
                                               (props_of w2 apiKeys' r)
                                               "userId";
                                   apiKey := k |}), w2)
                  end
            end
        end
  end.
Proof.
  unfold validateApiKey, after_gate.
  destruct (x_api_key req0) as [k|]; [|done].
  destruct (negb (truthy (VStr k))); [done|].
  unfold try_catch. exec.
  destruct (store w API_KEYS_FILE) as [apiKeys|e]; [|done]. exec.
  destruct (index _ apiKeys k) as [r|]; [|done].
  exec. cbv zeta.
  destruct (truthy (lookup_chain _ _ "revoked")); [done|].
  exec.
  destruct (Date_lt _ _); [done|]. exec.
  autorewrite with world.
  destruct (fs w !! API_KEYS_FILE) as [[data|c]|]; exec; reflexivity.
Qed.

Lemma delete_api_keys_run (k : string) (w : World) :
  delete_api_keys k w =
  match store w API_KEYS_FILE with
  | Throw _ => (Ok (error 500 "Error revoking API key"), w)
  | Ok apiKeys =>
      match index (prototype w) apiKeys k with
      | None => (Ok (error 404 "API key not found"), w)
      | Some r =>
          let now := VStr (toISOString (clock w (ticks w))) in
          let apiKeys' :=
            doc_after_set (doc_after_set apiKeys r "revoked" (VBool true))
                          r "revokedAt" now in
          let w1 :=
            world_after_set
              (set_ticks (S (ticks w))
                         (world_after_set w r "revoked" (VBool true)))
              r "revokedAt" now in
          match fs w !! API_KEYS_FILE with
          | Some (Fault _) => (Ok (error 500 "Error revoking API key"), w1)
          | _ =>
              (Ok (Json 200 (Object
                     {[ "message" := VStr "API key revoked successfully" ]})),
               set_fs (<[API_KEYS_FILE := File (JSON_stringify apiKeys')]>
                         (fs w)) w1)
          end
      end
  end.
Proof.
  unfold delete_api_keys, try_catch. exec.
  destruct (store w API_KEYS_FILE) as [apiKeys|e]; [|done]. exec.
  destruct (index _ apiKeys k) as [r|]; [|done]. exec. cbv zeta.
  autorewrite with world.
  destruct (fs w !! API_KEYS_FILE) as [[data|c]|]; exec; reflexivity.
Qed.

Lemma patch_api_keys_run (k : string) (req0 : request) (w : World) :
  patch_api_keys k req0 w =
  match store w API_KEYS_FILE with
  | Throw _ => (Ok (error 500 "Error updating API key"), w)
  | Ok apiKeys =>
      match index (prototype w) apiKeys k with
      | None => (Ok (error 404 "API key not found"), w)
      | Some r =>
          let description :=
            lookup_chain (prototype w) (body req0) "description" in
          let now := VStr (toISOString (clock w (ticks w))) in
          let apiKeys' :=
            doc_after_set (doc_after_set apiKeys r "description" description)
                          r "updatedAt" now in
          let w1 :=
            world_after_set
              (set_ticks (S (ticks w))
                         (world_after_set w r "description" description))
              r "updatedAt" now in
          match fs w !! API_KEYS_FILE with
          | Some (Fault _) => (Ok (error 500 "Error updating API key"), w1)
          | _ =>
              let w2 := set_fs (<[API_KEYS_FILE :=
                                   File (JSON_stringify apiKeys')]> (fs w))
                               w1 in
              (Ok (Json 200 (Object (copy_of w2 apiKeys' r
                                     ∪ {[ "apiKey" := VStr k ]}))), w2)
          end
      end
  end.
Proof.
  unfold patch_api_keys, try_catch. exec.
  destruct (store w API_KEYS_FILE) as [apiKeys|e]; [|done]. exec.
  destruct (index _ apiKeys k) as [r|]; [|done]. exec. cbv zeta.
  autorewrite with world.
  destruct (fs w !! API_KEYS_FILE) as [[data|c]|]; exec; reflexivity.
Qed.

Lemma get_api_keys_run (u : string) (w : World) :
  get_api_keys u w =
  (match store w API_KEYS_FILE with
   | Throw _ => Ok (error 500 "Error retrieving API keys")
   | Ok apiKeys =>
       Ok (Json 200 (Array
             ((λ entry, entry.2 ∪ {[ "apiKey" := VStr entry.1 ]})
                <$> List.filter
                      (λ entry, strict_eq (lookup_chain (prototype w) entry.2
                                                        "userId") (VStr u))
                      (map_to_list apiKeys))))
   end, w).
Proof.
  unfold get_api_keys, try_catch. exec.
  destruct (store w API_KEYS_FILE) as [apiKeys|e]; [|done].
  unfold Object_prototype, builtin_props. exec. reflexivity.
Qed.
End Normal_forms.

(** ** Listing, creating and using keys *)

Section Listing.
Context `{Runtime}.

Lemma count_entries (proto : obj) (apiKeys : document) (u : jsval) :
  length (List.filter
            (λ entry : string * obj,
               strict_eq (lookup_chain proto entry.2 "userId") u)
            (map_to_list apiKeys))
  = user_key_count proto apiKeys u.
Proof.
  unfold user_key_count, strict_eq.
  rewrite (filter_bool_decide
             (λ entry : string * obj, lookup_chain proto entry.2 "userId" = u)).
  rewrite map_filter_alt, <- length_map_to_list.
  apply Permutation_length. symmetry. apply map_to_list_to_map.
  eapply NoDup_fmap_fst.
  - intros k x y Hx Hy. apply list_elem_of_filter in Hx as [_ Hx].
    apply list_elem_of_filter in Hy as [_ Hy].
    apply elem_of_map_to_list in Hx, Hy. congruence.
  - apply NoDup_filter, NoDup_map_to_list.
Qed.

(** X1. [GET /api/keys/:userId] on a readable store answers 200 with an
    array that holds, for each record whose [userId] is the string asked
    for and for no other, the record's fields with the key added as
    [apiKey] (a field [apiKey] of the record itself is kept); the array
    has as many entries as [POST /api/keys] counts against the quota; and
    the route changes nothing. *)
Theorem get_api_keys_lists (u : string) (w : World) (apiKeys : document) :
  store w API_KEYS_FILE = Ok apiKeys →
  ∃ l, get_api_keys u w = (Ok (Json 200 (Array l)), w)
    ∧ (∀ o, o ∈ l ↔ ∃ k r, apiKeys !! k = Some r
                          ∧ lookup_chain (prototype w) r "userId" = VStr u
                          ∧ o = r ∪ {[ "apiKey" := VStr k ]})
    ∧ length l = user_key_count (prototype w) apiKeys (VStr u).
Proof.
  intros Hs. rewrite get_api_keys_run, Hs. eexists. split; [reflexivity|].
  split.
  - intros o. rewrite list_elem_of_fmap. unfold strict_eq.
    rewrite (filter_bool_decide
               (λ entry : string * obj,
                  lookup_chain (prototype w) entry.2 "userId" = VStr u)).
    split.
    + intros ([k r] & -> & Hin). apply list_elem_of_filter in Hin as [Hu Hin].
      apply elem_of_map_to_list in Hin. by exists k, r.
    + intros (k & r & Hr & Hu & ->). exists (k, r). split; [done|].
      apply list_elem_of_filter. split; [done|].
      by apply elem_of_map_to_list.
  - rewrite length_fmap. apply count_entries.
Qed.
End Listing.

(** The keys of [u1] where [k1] is the only key. *)
Lemma get_api_keys_lists_witness :
  ∃ l, get_api_keys "u1" (with_key counting)
       = (Ok (Json 200 (Array l)), with_key counting)
    ∧ (∀ o, o ∈ l ↔ ∃ k r, ({[ "k1" := a_key ]} : document) !! k = Some r
                          ∧ lookup_chain (prototype (with_key counting)) r
                                         "userId" = VStr "u1"
                          ∧ o = r ∪ {[ "apiKey" := VStr k ]})
    ∧ length l = user_key_count (prototype (with_key counting))
                                {[ "k1" := a_key ]} (VStr "u1").
Proof.
  apply (get_api_keys_lists "u1" (with_key counting) {[ "k1" := a_key ]}).
  by_computation.
Defined.

Section Keys.
Context `{Runtime}.

Lemma post_api_keys_ok (req0 : request) (w w' : World) (b : payload) :
  post_api_keys req0 w = (Ok (Json 200 b), w') →
  ∃ apiKeys,
    store w API_KEYS_FILE = Ok apiKeys
    ∧ store w' API_KEYS_FILE
      = Ok (<[new_key req0 w := new_record req0 w]> apiKeys)
    ∧ builtins w' = builtins w ∧ clock w' = clock w
    ∧ ticks w' = S (S (ticks w)) ∧ entropy w' = entropy w
    ∧ fs w' !! URLS_FILE = fs w !! URLS_FILE.
Proof.
  rewrite post_api_keys_run. cbv zeta.
  destruct (store w API_KEYS_FILE) as [apiKeys|e] eqn:Hs; [|done].
  case_bool_decide; [done|]. intros Hrun. exists apiKeys. split; [done|].
  assert (Hb : builtins (after_userId req0 w) = builtins w
               ∧ clock (after_userId req0 w) = clock w
               ∧ entropy (after_userId req0 w) = entropy w
               ∧ ticks (after_userId req0 w) = ticks w).
  { unfold after_userId. by destruct (truthy _). }
  destruct Hb as (Hb & Hc & He & Ht).
  assert (w' = set_fs
            (<[API_KEYS_FILE :=
                 File (JSON_stringify
                         (<[new_key req0 w := new_record req0 w]> apiKeys))]>
               (fs w))
            (set_ticks (S (S (ticks w)))
               (set_drawn (drawn (after_userId req0 w) + 16)
                          (after_userId req0 w)))) as ->.
  { destruct (fs w !! API_KEYS_FILE) as [[data|c]|]; by simplify_eq. }
  autorewrite with world. split; [|by rewrite lookup_insert_ne].
  rewrite store_eq. autorewrite with world. rewrite lookup_insert_eq.
  rewrite JSON_parse_stringify, jsonify_insert.
  rewrite (store_defined _ _ _ Hs). unfold new_record.
  rewrite jsonify_created_record;
    [done|apply requested_userId_defined|apply js_or_null_defined].
Qed.

Lemma new_key_not_empty (req0 : request) (w : World) : new_key req0 w ≠ "".
Proof.
  intros E. apply (f_equal String.length) in E. unfold new_key in E.
  by rewrite hex_length, length_fmap, length_seq in E.
Qed.

(** X2. A key that [POST /api/keys] created for a user whose identifier
    is a string is listed by [GET /api/keys/:userId] for that user right
    after, with the key as [apiKey], not revoked and never used. *)
Theorem create_then_list (req0 : request) (w w' : World) (b : payload)
    (u : string) :
  post_api_keys req0 w = (Ok (Json 200 b), w') →
  requested_userId req0 w = VStr u →
  ∃ l entry,
    get_api_keys u w' = (Ok (Json 200 (Array l)), w')
    ∧ entry ∈ l
    ∧ entry !! "apiKey" = Some (VStr (new_key req0 w))
    ∧ entry !! "userId" = Some (VStr u)
    ∧ entry !! "revoked" = Some (VBool false)
    ∧ entry !! "lastUsed" = Some VNull.
Proof.
  intros Hrun Hu.
  destruct (post_api_keys_ok _ _ _ _ Hrun) as (apiKeys & _ & Hs' & Hb & _).
  rewrite get_api_keys_run, Hs'.
  eexists _, (new_record req0 w ∪ {[ "apiKey" := VStr (new_key req0 w) ]}).
  split; [reflexivity|]. split.
  - apply list_elem_of_fmap. exists (new_key req0 w, new_record req0 w).
    split; [done|]. apply list_elem_of_In, filter_In. split.
    + apply list_elem_of_In, elem_of_map_to_list, lookup_insert_eq.
    + unfold strict_eq. apply bool_decide_eq_true_2. simpl.
      apply lookup_chain_own. unfold new_record, created_record.
      rewrite Hu. by simplify_map_eq.
  - unfold new_record, created_record. rewrite Hu.
    repeat split; apply lookup_union_Some_raw; by simplify_map_eq; eauto.
Qed.

(** X3. A key that [POST /api/keys] just created passes [validateApiKey]
    when the date parser reads the expiry date back as it was written and
    the clock has not passed it: the gate hands on the user the key was
    created for, and the store then holds the time of this use as the
    record's [lastUsed]. *)
Theorem create_then_validate (req0 req1 : request) (w w' : World)
    (b : payload) :
  post_api_keys req0 w = (Ok (Json 200 b), w') →
  x_api_key req1 = Some (new_key req0 w) →
  Date_parse (toISOString (new_expiry w)) = Some (new_expiry w) →
  clock w (S (S (ticks w))) ≤ new_expiry w →
  ∃ w'' apiKeys' r',
    validateApiKey req1 w'
    = (Ok (Next {| req := req1; userId := requested_userId req0 w;
                   apiKey := new_key req0 w |}), w'')
    ∧ store w'' API_KEYS_FILE = Ok apiKeys'
    ∧ apiKeys' !! new_key req0 w = Some r'
    ∧ r' !! "lastUsed"
      = Some (VStr (toISOString (clock w (S (S (S (ticks w))))))).
Proof.
  intros Hrun Hk Hparse Hle.
  destruct (post_api_keys_ok _ _ _ _ Hrun)
    as (apiKeys & _ & Hs' & Hb & Hc & Ht & _).
  pose proof (store_defined _ _ _ Hs') as Hd.
  assert (Hr : (<[new_key req0 w := new_record req0 w]> apiKeys)
               !! new_key req0 w = Some (new_record req0 w))
    by apply lookup_insert_eq.
  destruct (store_record_file _ _ _ _ _ Hs' Hr) as [data Hfile].
  rewrite validateApiKey_run, Hk, truthy_VStr by apply new_key_not_empty.
  cbn [negb]. rewrite Hs'. unfold index, after_gate. rewrite Hr. cbv zeta.
  cbn [props_of doc_after_set world_after_set]. rewrite Hr.
  cbn [from_option id].
  assert (Hrev : lookup_chain (prototype w') (new_record req0 w) "revoked"
                 = VBool false).
  { apply lookup_chain_own. unfold new_record, created_record.
    by simplify_map_eq. }
  assert (Hexp : lookup_chain (prototype w') (new_record req0 w) "expiresAt"
                 = VStr (toISOString (new_expiry w)))
    by apply literal_expiresAt.
  rewrite Hrev, Hexp. cbn [truthy Date_value]. rewrite Hparse. cbn [Date_lt].
  rewrite Hc, Ht. apply Z.ltb_ge in Hle. rewrite Hle, Hfile.
  rewrite (alter_record _ _ (new_record req0 w)) by done.
  rewrite lookup_insert_eq. cbn [from_option id].
  rewrite lookup_chain_insert_ne by done.
  rewrite (lookup_chain_own _ (new_record req0 w) "userId"
             (requested_userId req0 w))
    by (unfold new_record, created_record; by simplify_map_eq).
  eexists _, _, _. split; [reflexivity|].
  split.
  { rewrite store_eq. autorewrite with world. rewrite lookup_insert_eq.
    rewrite JSON_parse_stringify. reflexivity. }
  rewrite jsonify_lookup, lookup_insert_eq. cbn [fmap option_fmap option_map].
  split; [reflexivity|].
  apply jsonify_obj_lookup. split; [apply lookup_insert_eq|done].
Qed.
End Keys.

(** The first key of [u1] is listed for [u1]. *)
Lemma create_then_list_witness :
  let w' := (post_api_keys u1_asks fresh).2 in
  ∃ l entry,
    get_api_keys "u1" w' = (Ok (Json 200 (Array l)), w')
    ∧ entry ∈ l
    ∧ entry !! "apiKey" = Some (VStr (new_key u1_asks fresh))
    ∧ entry !! "userId" = Some (VStr "u1")
    ∧ entry !! "revoked" = Some (VBool false)
    ∧ entry !! "lastUsed" = Some VNull.
Proof.
  intros w'.
  refine (create_then_list u1_asks fresh w' first_key_of_u1 "u1" _ _).
  - apply pair_eq; [by_computation|reflexivity].
  - by_computation.
Defined.

(** The first key of [u1] passes the gate right after its creation. *)
Lemma create_then_validate_witness :
  let w' := (post_api_keys u1_asks fresh).2 in
  let req1 := a_request (Some (new_key u1_asks fresh)) ∅ in
  ∃ (w'' : @World reference) (apiKeys' : document) (r' : obj),
    validateApiKey req1 w'
    = (Ok (Next {| req := req1; userId := requested_userId u1_asks fresh;
                   apiKey := new_key u1_asks fresh |}), w'')
    ∧ store w'' API_KEYS_FILE = Ok apiKeys'
    ∧ apiKeys' !! new_key u1_asks fresh = Some r'
    ∧ r' !! "lastUsed"
      = Some (VStr (@toISOString reference
                      (clock fresh (S (S (S (ticks fresh))))))).
Proof.
  intros w' req1.
  refine (create_then_validate u1_asks req1 fresh w' first_key_of_u1
            _ _ _ _).
  - apply pair_eq; [by_computation|reflexivity].
  - reflexivity.
  - by_computation.
  - by_computation.
Defined.

(** ** Revoking, and what a key record keeps *)

Section Revoke.
Context `{Runtime}.

Lemma alter_alter_record (d : document) (k : string) (r : obj)
    (f g : obj → obj) :
  d !! k = Some r → alter g k (alter f k d) = <[k := g (f r)]> d.
Proof.
  intros Hr. rewrite (alter_record d _ r) by done.
  rewrite (alter_record _ _ (f r)) by apply lookup_insert_eq.
  apply insert_insert_eq.
Qed.

Lemma store_other_file (w w' : World) (p q : string) (data : text) :
  fs w' = <[q := File data]> (fs w) → p ≠ q → store w' p = store w p.
Proof.
  intros Hfs Hne. by rewrite !store_eq, Hfs, lookup_insert_ne.
Qed.

(** X4. [DELETE /api/keys/:apiKey] answers 404 and changes nothing when
    the store holds no record under the key (and the key is not a name
    objects inherit, from the start or since an earlier request). On a
    stored key it answers 200, and the store then
    holds the record with [revoked = true] and [revokedAt] the reading of
    the clock, its other fields, every other record and the URL store
    being as before. *)
Theorem delete_api_keys_revokes (k : string) (w : World)
    (apiKeys : document) :
  store w API_KEYS_FILE = Ok apiKeys →
  (apiKeys !! k = None → k ∉ Object_prototype_names →
   prototype w !! k = None →
   delete_api_keys k w = (Ok (error 404 "API key not found"), w))
  ∧ (∀ r, apiKeys !! k = Some r →
       let w' := (delete_api_keys k w).2 in
       (delete_api_keys k w).1
       = Ok (Json 200 (Object
               {[ "message" := VStr "API key revoked successfully" ]}))
       ∧ ∃ r',
           store w' API_KEYS_FILE = Ok (<[k := r']> apiKeys)
           ∧ r' !! "revoked" = Some (VBool true)
           ∧ r' !! "revokedAt" = Some (VStr (toISOString (clock w (ticks w))))
           ∧ (∀ p, p ≠ "revoked" → p ≠ "revokedAt" → r' !! p = r !! p)
           ∧ store w' URLS_FILE = store w URLS_FILE).
Proof.
  intros Hs. rewrite delete_api_keys_run, Hs. unfold index. split.
  { intros Hnone Hname Hproto.
    by rewrite Hnone, Hproto, bool_decide_eq_false_2. }
  intros r Hr. rewrite Hr. cbv zeta.
  destruct (store_record_file _ _ _ _ _ Hs Hr) as [data Hfile].
  pose proof (store_defined _ _ _ Hs) as Hd.
  rewrite Hfile. cbn [fst snd doc_after_set world_after_set].
  rewrite (alter_alter_record _ _ r) by done.
  split; [reflexivity|]. eexists. split.
  { rewrite store_eq. autorewrite with world. rewrite lookup_insert_eq.
    rewrite JSON_parse_stringify, jsonify_insert, Hd.
    rewrite !jsonify_obj_insert by done.
    by rewrite (jsonify_record _ _ _ Hd Hr). }
  split; [by rewrite lookup_insert_ne, lookup_insert_eq|].
  split; [apply lookup_insert_eq|].
  split; [by intros p Hp1 Hp2; rewrite !lookup_insert_ne|].
  by apply (store_other_file _ _ _ API_KEYS_FILE
              (JSON_stringify
                 (<[k := <["revokedAt" := VStr (toISOString (clock w (ticks w)))]>
                           (<["revoked" := VBool true]> r)]> apiKeys))).
Qed.

(** X5. Once [DELETE /api/keys/:apiKey] has run on a stored key, a request
    to shorten that carries the key is answered [Revoked] (401) by the
    gate, and nothing is written or read from the clock: the world stays
    as the revocation left it. *)
Theorem revoke_then_validate (req0 : request) (k : string) (w : World)
    (apiKeys : document) (r : obj) :
  store w API_KEYS_FILE = Ok apiKeys → apiKeys !! k = Some r →
  x_api_key req0 = Some k → k ≠ "" →
  let w' := (delete_api_keys k w).2 in
  validateApiKey req0 w' = (Ok (Responded Revoked), w')
  ∧ post_api_shorten req0 w' = (Ok Revoked, w').
Proof.
  intros Hs Hr Hk Hne. cbv zeta.
  assert (Hgate : validateApiKey req0 (delete_api_keys k w).2
                  = (Ok (Responded Revoked), (delete_api_keys k w).2)).
  { rewrite delete_api_keys_run, Hs. unfold index. rewrite Hr. cbv zeta.
    destruct (store_record_file _ _ _ _ _ Hs Hr) as [data Hfile].
    rewrite Hfile. cbn [snd doc_after_set world_after_set].
    rewrite (alter_alter_record _ _ r) by done.
    rewrite validateApiKey_run, Hk, truthy_VStr by done. cbn [negb].
    rewrite store_eq. autorewrite with world. rewrite lookup_insert_eq.
    rewrite JSON_parse_stringify. unfold index.
    rewrite jsonify_lookup, lookup_insert_eq.
    cbn [fmap option_fmap option_map]. cbv zeta. cbn [props_of].
    rewrite jsonify_lookup, lookup_insert_eq.
    cbn [fmap option_fmap option_map from_option id].
    rewrite !jsonify_obj_insert by done.
    rewrite lookup_chain_insert_ne by done.
    by rewrite (lookup_chain_own _ _ "revoked" (VBool true))
      by apply lookup_insert_eq. }
  split; [done|]. unfold post_api_shorten. by rewrite bind_run, Hgate.
Qed.

Lemma kept_refl (r : obj) : kept r r.
Proof. by split. Qed.

Lemma kept_insert (r0 r : obj) (p : string) (v : jsval) :
  kept r0 r → p ∈ volatile → p ≠ "revoked" ∨ v = VBool true →
  kept r0 (<[p := v]> r).
Proof.
  intros [Hsame Hrev] Hp Hv. split.
  - intros q Hq. rewrite lookup_insert_ne by by intros ->. by apply Hsame.
  - intros Hr0. destruct (decide (p = "revoked")) as [->|Hne].
    + destruct Hv as [?| ->]; [done|]. apply lookup_insert_eq.
    + rewrite lookup_insert_ne by done. by apply Hrev.
Qed.

Lemma kept_jsonify (r0 r : obj) :
  jsonify_obj r0 = r0 → kept r0 r → kept r0 (jsonify_obj r).
Proof.
  intros Hr0 [Hsame Hrev]. split.
  - intros p Hp. transitivity (jsonify_obj r0 !! p); [|by rewrite Hr0].
    unfold jsonify_obj. rewrite !map_lookup_filter. by rewrite Hsame.
  - intros Hr. apply jsonify_obj_lookup. split; [by apply Hrev|done].
Qed.

Lemma doc_after_set_kept (d : document) (ref0 : ref) (p : string)
    (v : jsval) (k : string) (r0 r : obj) :
  d !! k = Some r → kept r0 r → p ∈ volatile →
  p ≠ "revoked" ∨ v = VBool true →
  ∃ r', doc_after_set d ref0 p v !! k = Some r' ∧ kept r0 r'.
Proof.
  intros Hr Hk Hp Hv. destruct ref0 as [j|j|v0]; [|by exists r..].
  cbn [doc_after_set]. destruct (decide (j = k)) as [->|Hne].
  - exists (<[p := v]> r). rewrite lookup_alter_eq, Hr.
    split; [done|]. by apply kept_insert.
  - exists r. by rewrite lookup_alter_ne.
Qed.

Lemma keeps_same (w w' : World) (k : string) :
  fs w' !! API_KEYS_FILE = fs w !! API_KEYS_FILE → keeps w w' k.
Proof.
  intros Hfs d r Hs Hr. exists d, r.
  split; [by rewrite store_eq, Hfs, <- store_eq|]. split; [done|].
  apply kept_refl.
Qed.

Lemma keeps_write (w w' : World) (k : string) (d d1 : document)
    (r r1 : obj) :
  store w API_KEYS_FILE = Ok d → d !! k = Some r →
  fs w' !! API_KEYS_FILE = Some (File (JSON_stringify d1)) →
  d1 !! k = Some r1 → kept r r1 →
  ∃ d' r', store w' API_KEYS_FILE = Ok d' ∧ d' !! k = Some r' ∧ kept r r'.
Proof.
  intros Hs Hr Hfs Hr1 Hk. exists (jsonify d1), (jsonify_obj r1).
  rewrite store_eq, Hfs, JSON_parse_stringify, jsonify_lookup, Hr1.
  repeat split; try done; apply kept_jsonify; try done;
    by apply (jsonify_record d k); [eapply store_defined|].
Qed.

Lemma keeps_trans (w1 w2 w3 : World) (k : string) :
  keeps w1 w2 k → keeps w2 w3 k → keeps w1 w3 k.
Proof.
  intros H12 H23 d r Hs Hr.
  destruct (H12 d r Hs Hr) as (d2 & r2 & Hs2 & Hr2 & Hsame2 & Hrev2).
  destruct (H23 d2 r2 Hs2 Hr2) as (d3 & r3 & Hs3 & Hr3 & Hsame3 & Hrev3).
  exists d3, r3. repeat split; try done.
  - intros p Hp. by rewrite Hsame3, Hsame2.
  - intros Hrev. by apply Hrev3, Hrev2.
Qed.

Lemma validateApiKey_keeps (req0 : request) (w : World) (k : string) :
  keeps w (validateApiKey req0 w).2 k.
Proof.
  rewrite validateApiKey_run.
  destruct (x_api_key req0) as [j|]; [|by apply keeps_same].
  destruct (negb (truthy (VStr j))); [by apply keeps_same|].
  destruct (store w API_KEYS_FILE) as [d|e] eqn:Hs; [|by apply keeps_same].
  destruct (index _ d j) as [ref0|]; [|by apply keeps_same]. cbv zeta.
  destruct (truthy _); [by apply keeps_same|].
  destruct (Date_lt _ _); [by apply keeps_same|].
  intros d0 r Hs0 Hr. assert (d0 = d) as -> by congruence.
  destruct (store_record_file _ _ _ _ _ Hs Hr) as [data Hfile].
  rewrite Hfile. cbn [snd].
  destruct (doc_after_set_kept d ref0 "lastUsed"
              (VStr (toISOString (clock w (S (ticks w))))) k r r)
    as (r' & Hr' & Hk'); [done|apply kept_refl|by_computation|by left|].
  eapply (keeps_write w); [done..| |done|done].
  autorewrite with world. apply lookup_insert_eq.
Qed.

(** X6. What a key is does not change. Whatever the operation, a record
    of the key store is in the key store after it, with every field other
    than [lastUsed], [revoked], [revokedAt], [description] and [updatedAt]
    as before, its [userId], [createdAt] and [expiresAt] among them, and
    revoked if it was revoked; the one exception is a creation that draws
    the very key of the record, which replaces the record. *)
Theorem key_records_keep (op : operation) (w : World) (k : string)
    (d : document) (r : obj) :
  store w API_KEYS_FILE = Ok d → d !! k = Some r →
  (∀ req0, op = Create req0 → new_key req0 w ≠ k) →
  ∃ d' r',
    store (perform op w) API_KEYS_FILE = Ok d' ∧ d' !! k = Some r'
    ∧ (∀ p, p ∉ volatile → r' !! p = r !! p)
    ∧ (r !! "revoked" = Some (VBool true)
       → r' !! "revoked" = Some (VBool true)).
Proof.
  intros Hs Hr Hfresh.
  destruct (store_record_file _ _ _ _ _ Hs Hr) as [data Hfile].
  assert (Hkeeps : keeps w (perform op w) k); [|exact (Hkeeps d r Hs Hr)].
  assert (Hwrite : ∀ w' d1 r1,
            fs w' !! API_KEYS_FILE = Some (File (JSON_stringify d1)) →
            d1 !! k = Some r1 → kept r r1 → keeps w w' k).
  { intros w' d1 r1 Hfs Hr1 Hk d0 r0 Hs0 Hr0.
    assert (d0 = d) as -> by congruence.
    assert (r0 = r) as -> by congruence.
    by eapply (keeps_write w). }
  destruct op as [req0|u|j|j req0|req0|req0|s]; cbn [perform].
  - rewrite post_api_keys_run. cbv zeta. rewrite Hs, Hfile.
    assert (Hfs : fs (after_userId req0 w) = fs w)
      by (unfold after_userId; by destruct (truthy _)).
    case_bool_decide; cbn [snd].
    + apply keeps_same. by rewrite Hfs.
    + eapply (Hwrite _ _ r); [|by rewrite lookup_insert_ne by by apply Hfresh
                              |apply kept_refl].
      autorewrite with world. apply lookup_insert_eq.
  - rewrite get_api_keys_run. by apply keeps_same.
  - rewrite delete_api_keys_run, Hs.
    destruct (index _ d j) as [ref0|]; [|by apply keeps_same]. cbv zeta.
    rewrite Hfile. cbn [snd].
    destruct (doc_after_set_kept d ref0 "revoked" (VBool true) k r r)
      as (r1 & Hr1 & Hk1); [done|apply kept_refl|by_computation|by right|].
    destruct (doc_after_set_kept _ ref0 "revokedAt"
                (VStr (toISOString (clock w (ticks w)))) k r r1 Hr1 Hk1)
      as (r2 & Hr2 & Hk2); [by_computation|by left|].
    eapply Hwrite; [|done|done].
    autorewrite with world. apply lookup_insert_eq.
  - rewrite patch_api_keys_run, Hs.
    destruct (index _ d j) as [ref0|]; [|by apply keeps_same]. cbv zeta.
    rewrite Hfile. cbn [snd].
    destruct (doc_after_set_kept d ref0 "description"
                (lookup_chain (prototype w) (body req0) "description") k r r)
      as (r1 & Hr1 & Hk1); [done|apply kept_refl|by_computation|by left|].
    destruct (doc_after_set_kept _ ref0 "updatedAt"
                (VStr (toISOString (clock w (ticks w)))) k r r1 Hr1 Hk1)
      as (r2 & Hr2 & Hk2); [by_computation|by left|].
    eapply Hwrite; [|done|done].
    autorewrite with world. apply lookup_insert_eq.
  - apply validateApiKey_keeps.
  - unfold post_api_shorten. rewrite bind_run.
    pose proof (validateApiKey_keeps req0 w k) as Hv.
    destruct (validateApiKey req0 w) as [[[resp|a]|e] w1]; cbn [snd] in Hv;
      [done| |done].
    apply (keeps_trans _ w1); [done|].
    rewrite shorten_run. cbv zeta.
    destruct (_ || _); [by apply keeps_same|].
    destruct (store w1 URLS_FILE); [|by apply keeps_same].
    destruct (fs w1 !! URLS_FILE) as [[data'|c]|]; cbn [snd];
      apply keeps_same; autorewrite with world;
      by rewrite ?lookup_insert_ne.
  - rewrite get_shortUrl_run. by apply keeps_same.
Qed.
End Revoke.

(** Revoking [k1]. *)
Lemma delete_api_keys_revokes_witness :
  (delete_api_keys "k1" (with_key counting)).1
  = Ok (Json 200 (Object
          {[ "message" := VStr "API key revoked successfully" ]})).
Proof.
  refine (proj1 (proj2 (delete_api_keys_revokes "k1" (with_key counting)
                          {[ "k1" := a_key ]} _) a_key _));
    by_computation.
Defined.

(** After its revocation [k1] is refused. *)
Lemma revoke_then_validate_witness :
  let w' := (delete_api_keys "k1" (with_key counting)).2 in
  validateApiKey (a_request (Some "k1") ∅) w' = (Ok (Responded Revoked), w').
Proof.
  refine (proj1 (revoke_then_validate (a_request (Some "k1") ∅) "k1"
                   (with_key counting) {[ "k1" := a_key ]} a_key _ _ _ _));
    by_computation.
Defined.

(** A description does not bring a revoked key back, even when the body
    asks for it. *)
Lemma key_records_keep_witness :
  let asks := a_request None {[ "description" := VStr "mine";
                                "revoked" := VBool false ]} in
  ∃ (d' : document) (r' : obj),
    store (perform (UpdateDescription "k1" asks) with_revoked_key)
          API_KEYS_FILE = Ok d'
    ∧ d' !! "k1" = Some r'
    ∧ (∀ p, p ∉ volatile → r' !! p = a_revoked_key !! p)
    ∧ (a_revoked_key !! "revoked" = Some (VBool true)
       → r' !! "revoked" = Some (VBool true)).
Proof.
  intros asks.
  refine (key_records_keep (UpdateDescription "k1" asks) with_revoked_key
            "k1" {[ "k1" := a_revoked_key ]} a_revoked_key _ _ _).
  - by_computation.
  - by_computation.
  - intros req0 E. discriminate E.
Defined.

(** ** Files that cannot be read or written *)

Section Failures.
Context `{Runtime}.


End Failures.



(** ** The route that shortens, as a whole *)

Section Route.
Context `{Runtime}.

Lemma store_insert_ne (w w0 : World) (p q : string) (data : text) :
  p ≠ q → store (set_fs (<[q := File data]> (fs w)) w0) p = store w p.
Proof. intros Hne. by apply (store_other_file _ _ _ q data). Qed.

(** What the gate does with a stored key that is neither revoked nor
    expired. *)
Lemma validateApiKey_passes (req0 : request) (w : World) (k : string)
    (apiKeys : document) (r : obj) :
  x_api_key req0 = Some k → k ≠ "" →
  store w API_KEYS_FILE = Ok apiKeys → apiKeys !! k = Some r →
  truthy (lookup_chain (prototype w) r "revoked") = false →
  Date_lt (Date_value (lookup_chain (prototype w) r "expiresAt"))
          (clock w (ticks w)) = false →
  let apiKeys' :=
    <[k := <["lastUsed" := VStr (toISOString (clock w (S (ticks w))))]> r]>
      apiKeys in
  let w' := set_fs (<[API_KEYS_FILE := File (JSON_stringify apiKeys')]> (fs w))
                   (set_ticks (S (S (ticks w))) w) in
  validateApiKey req0 w
  = (Ok (Next {| req := req0;
                 userId := lookup_chain (prototype w) r "userId";
                 apiKey := k |}), w')
  ∧ store w' API_KEYS_FILE = Ok apiKeys'.
Proof.
  intros Hk Hne Hs Hr Hrev Hexp. cbv zeta.
  destruct (store_record_file _ _ _ _ _ Hs Hr) as [data Hfile].
  rewrite validateApiKey_run, Hk, truthy_VStr by done. cbn [negb].
  rewrite Hs. unfold index, after_gate. rewrite Hr. cbv zeta.
  cbn [props_of doc_after_set world_after_set]. rewrite Hr.
  cbn [from_option id]. rewrite Hrev, Hexp, Hfile.
  rewrite (alter_record _ _ r) by done. rewrite lookup_insert_eq.
  cbn [from_option id]. rewrite lookup_chain_insert_ne by done.
  split; [reflexivity|].
  rewrite store_eq. autorewrite with world. rewrite lookup_insert_eq.
  rewrite JSON_parse_stringify. f_equal.
  apply jsonify_set; [by eapply store_defined|done..].
Qed.

(** X9. The gate's write is not undone when the handler refuses the URL.
    A request with a stored key that is neither revoked nor expired and
    with a [url] that is falsy or does not parse is answered [InvalidURL]
    (400), and yet the key store then holds the time of the request as
    the key's [lastUsed]; the URL store is as before. *)
Theorem refused_url_still_uses_key (req0 : request) (w : World) (k : string)
    (apiKeys : document) (r : obj) :
  x_api_key req0 = Some k → k ≠ "" →
  store w API_KEYS_FILE = Ok apiKeys → apiKeys !! k = Some r →
  truthy (lookup_chain (prototype w) r "revoked") = false →
  Date_lt (Date_value (lookup_chain (prototype w) r "expiresAt"))
          (clock w (ticks w)) = false →
  let url := lookup_chain (prototype w) (body req0) "url" in
  truthy url = false ∨ isValidUrl url = false →
  let w' := (post_api_shorten req0 w).2 in
  (post_api_shorten req0 w).1 = Ok InvalidURL
  ∧ store w' API_KEYS_FILE
    = Ok (<[k := <["lastUsed" := VStr (toISOString (clock w (S (ticks w))))]>
                   r]> apiKeys)
  ∧ store w' URLS_FILE = store w URLS_FILE.
Proof.
  intros Hk Hne Hs Hr Hrev Hexp url Hurl. cbv zeta.
  destruct (validateApiKey_passes _ _ _ _ _ Hk Hne Hs Hr Hrev Hexp)
    as [Hgate Hs'].
  unfold post_api_shorten. rewrite bind_run, Hgate, shorten_run. cbv zeta.
  cbn [req]. autorewrite with world. fold url.
  assert (negb (truthy url) || negb (isValidUrl url) = true) as ->.
  { destruct Hurl as [-> | ->]; [done|apply orb_true_r]. }
  cbn [fst snd]. split; [done|]. split; [done|].
  by apply store_insert_ne.
Qed.

(** X10. When [POST /api/shorten] succeeds for a stored key, the record
    it stores is filed under 8 characters of [0-9a-f], the hexadecimal of
    four random bytes, and holds the URL as [originalUrl], the [userId]
    of the key's record as [userId] (no [userId] at all when the key's
    record has none) and as [createdAt] the third reading of the clock,
    the gate having taken two; it holds nothing else. *)
Theorem shorten_stores_owner (req0 : request) (w w' : World) (b : payload)
    (u k : string) (apiKeys : document) (r : obj) :
  body req0 !! "url" = Some (VStr u) →
  x_api_key req0 = Some k →
  store w API_KEYS_FILE = Ok apiKeys → apiKeys !! k = Some r →
  post_api_shorten req0 w = (Ok (Json 200 b), w') →
  let id := hex (entropy w <$> seq (drawn w) 4) in
  let owner := lookup_chain (prototype w) r "userId" in
  String.length id = 8%nat ∧ all_chars is_lower_hex_digit id = true
  ∧ ∃ urls record,
      store w URLS_FILE = Ok urls
      ∧ store w' URLS_FILE = Ok (<[id := record]> urls)
      ∧ record !! "originalUrl" = Some (VStr u)
      ∧ record !! "userId"
        = (if decide (owner = VUndefined) then None else Some owner)
      ∧ record !! "createdAt"
        = Some (VStr (toISOString (clock w (S (S (ticks w))))))
      ∧ dom record ⊆ {[ "originalUrl"; "userId"; "createdAt" ]}.
Proof.
  intros Hu Hk Hs Hr Hrun. cbv zeta.
  split; [by rewrite hex_length, length_fmap, length_seq|].
  split; [apply hex_digits|].
  destruct (store_record_file _ _ _ _ _ Hs Hr) as [data Hfile].
  revert Hrun. unfold post_api_shorten.
  rewrite bind_run, validateApiKey_run, Hk.
  destruct (negb (truthy (VStr k))); [by intros [= ?]|].
  rewrite Hs. unfold index, after_gate. rewrite Hr. cbv zeta.
  cbn [props_of doc_after_set world_after_set]. rewrite Hr.
  cbn [from_option id].
  destruct (truthy _); [by intros [= ?]|].
  destruct (Date_lt _ _); [by intros [= ?]|].
  rewrite Hfile, (alter_record _ _ r) by done. rewrite lookup_insert_eq.
  cbn [from_option id]. rewrite lookup_chain_insert_ne by done.
  rewrite shorten_run. cbv zeta. cbn [req userId].
  autorewrite with world. rewrite (lookup_chain_own _ _ _ _ Hu).
  destruct (_ || _); [by intros [= ?]|].
  rewrite store_insert_ne by done.
  destruct (store w URLS_FILE) as [urls|e] eqn:Hurls; [|by intros [= ?]].
  rewrite lookup_insert_ne by done.
  destruct (fs w !! URLS_FILE) as [[data'|c]|] eqn:Hufile;
    [|by intros [= ?]|]; intros [= <- <-];
    eexists urls, _; (split; [done|]);
    (split;
     [ rewrite store_eq; autorewrite with world;
       rewrite lookup_insert_eq, JSON_parse_stringify, jsonify_insert;
       by rewrite (store_defined _ _ _ Hurls) |]);
    (split; [apply jsonify_obj_lookup; split; [by simplify_map_eq|done]|]);
    (split;
     [ rewrite <- insert_empty, insert_insert_ne by done;
       rewrite jsonify_obj_insert_eq; done |]);
    (split; [apply jsonify_obj_lookup; split; [by simplify_map_eq|done]|]);
    (etrans; [apply dom_filter_subseteq|]);
    rewrite !dom_insert_L; set_solver.
Qed.
End Route.

(** ["not-a-url"] is refused, and [k1] has been used. *)
Lemma refused_url_still_uses_key_witness :
  let w := with_key counting in
  let w' := (post_api_shorten (asks_to_shorten "not-a-url") w).2 in
  (post_api_shorten (asks_to_shorten "not-a-url") w).1 = Ok InvalidURL
  ∧ store w' API_KEYS_FILE
    = Ok (<["k1" := <["lastUsed" :=
                        VStr (@toISOString reference (clock w (S (ticks w))))]>
                      a_key]> {[ "k1" := a_key ]})
  ∧ store w' URLS_FILE = store w URLS_FILE.
Proof.
  intros w.
  refine (refused_url_still_uses_key (asks_to_shorten "not-a-url") w "k1"
            {[ "k1" := a_key ]} a_key _ _ _ _ _ _ _).
  1-6: by_computation.
  right. by_computation.
Defined.

(** The record of ["https://example.com/x"], shortened with [k1]. *)
Lemma shorten_stores_owner_witness :
  let w := with_key counting in
  let asks := asks_to_shorten "https://example.com/x" in
  let id := hex (entropy w <$> seq (drawn w) 4) in
  let owner := lookup_chain (prototype w) a_key "userId" in
  String.length id = 8%nat ∧ all_chars is_lower_hex_digit id = true
  ∧ ∃ (urls : document) (record : obj),
      store w URLS_FILE = Ok urls
      ∧ store (post_api_shorten asks w).2 URLS_FILE
        = Ok (<[id := record]> urls)
      ∧ record !! "originalUrl" = Some (VStr "https://example.com/x")
      ∧ record !! "userId"
        = (if decide (owner = VUndefined) then None else Some owner)
      ∧ record !! "createdAt"
        = Some (VStr (@toISOString reference (clock w (S (S (ticks w))))))
      ∧ dom record ⊆ {[ "originalUrl"; "userId"; "createdAt" ]}.
Proof.
  intros w asks.
  refine (shorten_stores_owner asks w (post_api_shorten asks w).2
            (answer (post_api_shorten asks w)) "https://example.com/x" "k1"
            {[ "k1" := a_key ]} a_key _ _ _ _ _).
  1-4: by_computation.
  apply pair_eq; [by_computation|reflexivity].
Defined.

(** ** Names that objects inherit *)

Section Inherited.
Context `{Runtime}.

Lemma untouched_lookup (w : World) (d : document) (j p : string) :
  untouched w → p ∈ ["revoked"; "expiresAt"; "userId"] →
  lookup_chain (prototype w) (props_of w d (Builtin j)) p = VUndefined.
Proof.
  intros Hw Hp. unfold lookup_chain, prototype. cbn [props_of].
  assert (Hnone : ∀ i, default ∅ (builtins w !! i) !! p = None).
  { intros i. destruct (builtins w !! i) as [o|] eqn:Hi; [|done].
    by apply (Hw i). }
  by rewrite !Hnone.
Qed.

Lemma untouched_name (p : string) :
  p ∈ ["revoked"; "expiresAt"; "userId"] → "lastUsed" ≠ p.
Proof.
  intros Hp <-.
  exact (bool_decide_eq_false_1
           ("lastUsed" ∈ ["revoked"; "expiresAt"; "userId"]) eq_refl Hp).
Qed.

Lemma inherited_name_not_empty (k : string) :
  k ∈ Object_prototype_names → k ≠ "".
Proof.
  intros Hk ->.
  exact (bool_decide_eq_false_1 ("" ∈ Object_prototype_names) eq_refl Hk).
Qed.

(** X11. The gate lets a name that [Object.prototype] has from the start
    pass as a key. When the key store is readable and writable and holds
    no record under such a name ([constructor], [toString], [__proto__]
    and the like), and no request has put [revoked], [expiresAt] or
    [userId] on a built-in object, nor anything on [Object.prototype]
    under that name, a request that carries the name as its API key
    passes [validateApiKey] with no [userId]; the key store holds the same
    document afterwards, and the next such request passes as well. *)
Theorem validateApiKey_inherited_name (req0 : request) (w : World)
    (k : string) (apiKeys : document) :
  x_api_key req0 = Some k → k ∈ Object_prototype_names →
  store w API_KEYS_FILE = Ok apiKeys → apiKeys !! k = None →
  prototype w !! k = None →
  (∀ c, fs w !! API_KEYS_FILE ≠ Some (Fault c)) → untouched w →
  ∃ w', validateApiKey req0 w
        = (Ok (Next {| req := req0; userId := VUndefined; apiKey := k |}), w')
        ∧ store w' API_KEYS_FILE = Ok apiKeys
        ∧ prototype w' !! k = None
        ∧ (∀ c, fs w' !! API_KEYS_FILE ≠ Some (Fault c))
        ∧ untouched w'.
Proof.
  intros Hk Hname Hs Hnone Hproto Hfile Hw.
  rewrite validateApiKey_run, Hk, truthy_VStr
    by by apply inherited_name_not_empty.
  cbn [negb]. rewrite Hs. unfold index.
  rewrite Hnone, Hproto, bool_decide_eq_true_2 by done. cbv zeta.
  rewrite !untouched_lookup by (done || by_computation).
  cbn [truthy Date_value Date_lt].
  set (w1 := after_gate w (Builtin k)).
  assert (Hw1 : untouched w1).
  { intros j o p Hj Hp. unfold w1, after_gate in Hj.
    cbn [world_after_set] in Hj. autorewrite with world in Hj.
    destruct (decide (j = k)) as [->|Hne].
    - rewrite lookup_insert_eq in Hj. injection Hj as <-.
      rewrite lookup_insert_ne by by apply untouched_name.
      destruct (builtins w !! k) as [o|] eqn:Ho; [|done]. by apply (Hw k).
    - rewrite lookup_insert_ne in Hj by done. by apply (Hw j). }
  assert (Hw2 : ∀ x, untouched (set_fs x w1)) by (intros x; exact Hw1).
  eexists. split.
  { destruct (fs w !! API_KEYS_FILE) as [[data|c]|] eqn:Hf;
      [|by destruct (Hfile c)|];
      by rewrite untouched_lookup by (apply Hw2 || by_computation). }
  autorewrite with world. split; [|split; [|split; [|apply Hw2]]].
  - rewrite store_eq. autorewrite with world. rewrite lookup_insert_eq.
    rewrite JSON_parse_stringify. cbn [doc_after_set].
    by rewrite (store_defined _ _ _ Hs).
  - unfold prototype, w1, after_gate. cbn [world_after_set].
    autorewrite with world.
    destruct (decide (k = "__proto__")) as [->|Hne].
    + rewrite lookup_insert_eq. cbn [from_option id].
      rewrite lookup_insert_ne by done. exact Hproto.
    + rewrite lookup_insert_ne by done. exact Hproto.
  - intros c. by rewrite lookup_insert_eq.
Qed.

(** X21. The gate also lets pass, as a key, a name under which an
    earlier request has put a truthy value on [Object.prototype], such
    as [lastUsed] once a request with the key [__proto__] has passed.
    When the key store is readable and writable and holds no record
    under the name, and no request has put [revoked], [expiresAt] or
    [userId] on [Object.prototype], a request that carries the name as
    its API key passes [validateApiKey] with no [userId]; the gate reads
    the clock twice and writes the key store back as it was, and
    [Object.prototype] is as before. *)
Theorem validateApiKey_put_name (req0 : request) (w : World) (k : string)
    (apiKeys : document) (v : jsval) :
  x_api_key req0 = Some k → k ≠ "" →
  store w API_KEYS_FILE = Ok apiKeys → apiKeys !! k = None →
  prototype w !! k = Some v → truthy v = true →
  (∀ p, p ∈ ["revoked"; "expiresAt"; "userId"] → prototype w !! p = None) →
  (∀ c, fs w !! API_KEYS_FILE ≠ Some (Fault c)) →
  ∃ w', validateApiKey req0 w
        = (Ok (Next {| req := req0; userId := VUndefined; apiKey := k |}), w')
        ∧ store w' API_KEYS_FILE = Ok apiKeys
        ∧ builtins w' = builtins w
        ∧ ticks w' = S (S (ticks w)).
Proof.
  intros Hk Hne Hs Hnone Hproto Hv Hclean Hfile.
  rewrite validateApiKey_run, Hk, truthy_VStr by done.
  cbn [negb]. rewrite Hs. unfold index, after_gate.
  rewrite Hnone, Hproto, Hv. cbv zeta.
  cbn [props_of doc_after_set world_after_set].
  assert (Hread : ∀ w0 p, prototype w0 = prototype w →
            p ∈ ["revoked"; "expiresAt"; "userId"] →
            lookup_chain (prototype w0) ∅ p = VUndefined).
  { intros w0 p Hw0 Hp. unfold lookup_chain.
    by rewrite lookup_empty, Hw0, Hclean. }
  rewrite !Hread by (done || by_computation).
  cbn [truthy Date_value Date_lt].
  eexists. split.
  { by destruct (fs w !! API_KEYS_FILE) as [[data|c]|] eqn:Hf;
      [|destruct (Hfile c)|]. }
  autorewrite with world. split; [|done].
  rewrite store_eq. autorewrite with world. rewrite lookup_insert_eq.
  rewrite JSON_parse_stringify. by rewrite (store_defined _ _ _ Hs).
Qed.

(** X12. [PATCH /api/keys/__proto__] changes no record and changes what
    every object inherits. When the key store holds no record under
    [__proto__] (and nothing was put on [Object.prototype] under that
    name), the route answers 200 for a description [d] that is not
    empty, the key store holds the same document afterwards, and the key
    that [POST /api/keys] creates right after, for a request without a
    description, is stored with the description [d]. *)
Theorem patch_proto_describes_all (req0 req1 : request) (w w'' : World)
    (apiKeys : document) (d : string) (b' : payload) :
  store w API_KEYS_FILE = Ok apiKeys → apiKeys !! "__proto__" = None →
  prototype w !! "__proto__" = None →
  (∀ c, fs w !! API_KEYS_FILE ≠ Some (Fault c)) →
  body req0 !! "description" = Some (VStr d) → d ≠ "" →
  body req1 !! "description" = None →
  let w' := (patch_api_keys "__proto__" req0 w).2 in
  post_api_keys req1 w' = (Ok (Json 200 b'), w'') →
  (∃ b, (patch_api_keys "__proto__" req0 w).1 = Ok (Json 200 b))
  ∧ store w' API_KEYS_FILE = Ok apiKeys
  ∧ ∃ apiKeys'' record,
      store w'' API_KEYS_FILE = Ok apiKeys''
      ∧ apiKeys'' !! new_key req1 w' = Some record
      ∧ record !! "description" = Some (VStr d).
Proof.
  intros Hs Hnone Hproto0 Hfile Hd Hne Hd1. cbv zeta.
  rewrite patch_api_keys_run, Hs. unfold index.
  rewrite Hnone, Hproto0, bool_decide_eq_true_2 by by_computation. cbv zeta.
  rewrite (lookup_chain_own _ _ _ _ Hd).
  set (w1 := world_after_set _ _ "updatedAt" _).
  assert (Hproto : ∀ x, prototype (set_fs x w1) !! "description"
                        = Some (VStr d)).
  { intros x. unfold prototype, w1. cbn [world_after_set].
    autorewrite with world. rewrite !lookup_insert_eq. cbn [from_option id].
    rewrite lookup_insert_ne by done. apply lookup_insert_eq. }
  assert (Hcreate : ∀ wp, prototype wp !! "description" = Some (VStr d) →
            post_api_keys req1 wp = (Ok (Json 200 b'), w'') →
            ∃ apiKeys'' record,
              store w'' API_KEYS_FILE = Ok apiKeys''
              ∧ apiKeys'' !! new_key req1 wp = Some record
              ∧ record !! "description" = Some (VStr d)).
  { intros wp Hp Hrun.
    destruct (post_api_keys_ok _ _ _ _ Hrun) as (apiKeys0 & _ & Hs'' & _).
    eexists _, _. split; [exact Hs''|]. split; [apply lookup_insert_eq|].
    unfold new_record, created_record, lookup_chain. rewrite Hd1, Hp.
    cbn [from_option id]. unfold js_or. rewrite truthy_VStr by done.
    by simplify_map_eq. }
  destruct (fs w !! API_KEYS_FILE) as [[data|c]|] eqn:Hf;
    [|by destruct (Hfile c)|]; cbn [fst snd]; intros Hrun;
    (split; [by eexists|]);
    (split; [|by apply Hcreate]);
    rewrite store_eq; autorewrite with world;
    rewrite lookup_insert_eq, JSON_parse_stringify;
    cbn [doc_after_set]; by rewrite (store_defined _ _ _ Hs).
Qed.
End Inherited.

(** With no key ever created, [toString] passes the gate. *)
Lemma validateApiKey_inherited_name_witness :
  let req0 := a_request (Some "toString") ∅ in
  ∃ w' : @World reference,
    validateApiKey req0 fresh
    = (Ok (Next {| req := req0; userId := VUndefined;
                   apiKey := "toString" |}), w')
    ∧ store w' API_KEYS_FILE = Ok ∅
    ∧ prototype w' !! "toString" = None
    ∧ (∀ c, fs w' !! API_KEYS_FILE ≠ Some (Fault c))
    ∧ untouched w'.
Proof.
  intros req0.
  refine (validateApiKey_inherited_name req0 fresh "toString" ∅
            _ _ _ _ _ _ _).
  1-5: by_computation.
  - intros c E. discriminate E.
  - intros j o p Hj. discriminate Hj.
Defined.

(** Once the key [__proto__] has passed, the key [lastUsed] passes. *)
Lemma validateApiKey_put_name_witness :
  let w := (validateApiKey (a_request (Some "__proto__") ∅) fresh).2 in
  let req0 := a_request (Some "lastUsed") ∅ in
  ∃ w' : @World reference,
    validateApiKey req0 w
    = (Ok (Next {| req := req0; userId := VUndefined;
                   apiKey := "lastUsed" |}), w')
    ∧ store w' API_KEYS_FILE = Ok ∅
    ∧ builtins w' = builtins w
    ∧ ticks w' = S (S (ticks w)).
Proof.
  intros w req0.
  refine (validateApiKey_put_name req0 w "lastUsed" ∅
            (VStr "1970-01-01T00:00:00.001Z") _ _ _ _ _ _ _ _).
  1-6: by_computation.
  - intros p Hp.
    repeat (apply elem_of_cons in Hp as [->|Hp]; [by_computation|]).
    by apply elem_of_nil in Hp.
  - intros c E. discriminate E.
Defined.

(** After [PATCH /api/keys/__proto__] with the description [mine], the
    key of a request without a description is described as [mine]. *)
Lemma patch_proto_describes_all_witness :
  let describes := a_request None {[ "description" := VStr "mine" ]} in
  let w' := (patch_api_keys "__proto__" describes fresh).2 in
  let w'' := (post_api_keys u1_asks w').2 in
  (∃ b, (patch_api_keys "__proto__" describes fresh).1 = Ok (Json 200 b))
  ∧ store w' API_KEYS_FILE = Ok ∅
  ∧ ∃ (apiKeys'' : document) (record : obj),
      store w'' API_KEYS_FILE = Ok apiKeys''
      ∧ apiKeys'' !! new_key u1_asks w' = Some record
      ∧ record !! "description" = Some (VStr "mine").
Proof.
  intros describes w' w''.
  refine (patch_proto_describes_all describes u1_asks fresh w'' ∅ "mine"
            (answer (post_api_keys u1_asks w')) _ _ _ _ _ _ _ _).
  1-3: by_computation.
  - intros c E. discriminate E.
  - by_computation.
  - by_computation.
  - by_computation.
  - apply pair_eq; [by_computation|reflexivity].
Defined.

(** ** The first version of the server *)

Section Basic_facts.
Context `{Runtime}.

Lemma basic_validateApiKey_run (req0 : request) (w : World) :
  Basic.validateApiKey req0 w =
  (match x_api_key req0 with
   | None => Ok (Basic.Responded Unauthorized)
   | Some k =>
       if negb (truthy (VStr k)) then Ok (Basic.Responded Unauthorized)
       else
         match store w API_KEYS_FILE with
         | Throw _ =>
             Ok (Basic.Responded (error 500 "Internal server error"))
         | Ok apiKeys =>
             match index (prototype w) apiKeys k with
             | None => Ok (Basic.Responded InvalidKey)
             | Some r =>
                 Ok (Basic.Next req0
                       (lookup_chain (prototype w) (props_of w apiKeys r)
                                     "userId"))
             end
         end
   end, w).
Proof.
  unfold Basic.validateApiKey.
  destruct (x_api_key req0) as [k|]; [|done].
  destruct (negb (truthy (VStr k))); [done|].
  unfold try_catch. exec.
  destruct (store w API_KEYS_FILE) as [apiKeys|e]; [|done]. exec.
  destruct (index _ apiKeys k) as [r|]; [|done]. by exec.
Qed.

Lemma basic_post_api_keys_run (w : World) :
  Basic.post_api_keys w =
  let w1 := set_drawn (drawn w + 16 + 8) w in
  match store w API_KEYS_FILE with
  | Throw _ => (Ok (error 500 "Error generating API key"), w1)
  | Ok apiKeys =>
      match fs w !! API_KEYS_FILE with
      | Some (Fault _) =>
          (Ok (error 500 "Error generating API key"),
           set_ticks (S (ticks w)) w1)
      | _ =>
          (Ok (Json 200 (Object {[ "apiKey" := VStr (basic_key w);
                                   "userId" := VStr (basic_user w) ]})),
           set_fs (<[API_KEYS_FILE :=
                       File (JSON_stringify
                               (<[basic_key w := basic_record w]> apiKeys))]>
                     (fs w))
                  (set_ticks (S (ticks w)) w1))
      end
  end.
Proof.
  unfold Basic.post_api_keys, try_catch. exec. cbv zeta.
  autorewrite with world.
  rewrite (store_same_fs w (set_drawn _ w)) by reflexivity.
  destruct (store w API_KEYS_FILE) as [apiKeys|e]; [|done]. exec.
  autorewrite with world.
  by destruct (fs w !! API_KEYS_FILE) as [[data|c]|].
Qed.

Lemma basic_shorten_same (req0 : request) (u : jsval) (k : string) :
  Basic.shorten req0 u = shorten {| req := req0; userId := u; apiKey := k |}.
Proof. reflexivity. Qed.

Lemma basic_record_jsonify (w : World) :
  jsonify_obj (basic_record w) = basic_record w.
Proof.
  unfold basic_record, jsonify_obj.
  rewrite map_filter_insert_True by done.
  by rewrite map_filter_singleton_True.
Qed.

Lemma basic_post_api_keys_ok (w w' : World) (b : payload) :
  Basic.post_api_keys w = (Ok (Json 200 b), w') →
  b = Object {[ "apiKey" := VStr (basic_key w);
                "userId" := VStr (basic_user w) ]}
  ∧ ∃ apiKeys,
      store w API_KEYS_FILE = Ok apiKeys
      ∧ store w' API_KEYS_FILE
        = Ok (<[basic_key w := basic_record w]> apiKeys).
Proof.
  rewrite basic_post_api_keys_run. cbv zeta.
  destruct (store w API_KEYS_FILE) as [apiKeys|e] eqn:Hs; [|by intros [= ?]].
  destruct (fs w !! API_KEYS_FILE) as [[data|c]|] eqn:Hf;
    [|by intros [= ?]|]; intros [= <- <-]; (split; [done|]);
    exists apiKeys; (split; [done|]);
    rewrite store_eq; autorewrite with world;
    rewrite lookup_insert_eq, JSON_parse_stringify, jsonify_insert;
    by rewrite (store_defined _ _ _ Hs), basic_record_jsonify.
Qed.

Lemma basic_key_length (w : World) : String.length (basic_key w) = 32%nat.
Proof. unfold basic_key. by rewrite hex_length, length_fmap, length_seq. Qed.

Lemma basic_key_not_empty (w : World) : basic_key w ≠ "".
Proof. intros E. pose proof (basic_key_length w) as Hl. by rewrite E in Hl. Qed.

(** X13. The first version's gate only reads: whatever the request, it
    leaves the world as it is. It answers 401 for a request without a key
    and for a key the store does not hold (that is not a name objects
    inherit, from the start or since an earlier request), 500 when the key store cannot be read, and for a key the
    store holds it hands the request on with the [userId] of the record,
    whatever else the record says: a record with [revoked = true] or with
    an [expiresAt] in the past passes. *)
Theorem basic_validateApiKey_reads (req0 : request) (w : World) :
  (Basic.validateApiKey req0 w).2 = w
  ∧ (x_api_key req0 = None ∨ x_api_key req0 = Some "" →
     (Basic.validateApiKey req0 w).1 = Ok (Basic.Responded Unauthorized))
  ∧ (∀ k, x_api_key req0 = Some k → k ≠ "" →
       (∀ e, store w API_KEYS_FILE = Throw e →
          (Basic.validateApiKey req0 w).1
          = Ok (Basic.Responded (error 500 "Internal server error")))
       ∧ (∀ apiKeys, store w API_KEYS_FILE = Ok apiKeys →
            (apiKeys !! k = None → k ∉ Object_prototype_names →
             prototype w !! k = None →
             (Basic.validateApiKey req0 w).1
             = Ok (Basic.Responded InvalidKey))
            ∧ (∀ r, apiKeys !! k = Some r →
                 (Basic.validateApiKey req0 w).1
                 = Ok (Basic.Next req0
                         (lookup_chain (prototype w) r "userId"))))).
Proof.
  rewrite basic_validateApiKey_run. cbn [fst snd].
  split; [done|]. split; [by intros [-> | ->]|].
  intros k -> Hne. rewrite truthy_VStr by done. cbn [negb].
  split; [by intros e ->|]. intros apiKeys ->. unfold index. split.
  - intros Hnone Hname Hproto.
    by rewrite Hnone, Hproto, bool_decide_eq_false_2.
  - intros r Hr. rewrite Hr. cbn [props_of]. by rewrite Hr.
Qed.

(** X14. The first version's [POST /api/keys] sets no limit: whenever
    the key store can be read and written it answers 200, however many
    keys the store holds. It draws sixteen random bytes for the key and
    then eight for the user, whatever the request says, stores under the
    key a record of the user and of the reading of the clock and of
    nothing else, and the gate of the same version then lets the key pass
    for that user. *)
Theorem basic_create_then_validate (req1 : request) (w : World)
    (apiKeys : document) :
  store w API_KEYS_FILE = Ok apiKeys →
  (∀ c, fs w !! API_KEYS_FILE ≠ Some (Fault c)) →
  x_api_key req1 = Some (basic_key w) →
  ∃ w', Basic.post_api_keys w
        = (Ok (Json 200 (Object {[ "apiKey" := VStr (basic_key w);
                                   "userId" := VStr (basic_user w) ]})), w')
        ∧ store w' API_KEYS_FILE
          = Ok (<[basic_key w :=
                    {[ "userId" := VStr (basic_user w);
                       "createdAt" := VStr (toISOString (clock w (ticks w))) ]}]>
                  apiKeys)
        ∧ String.length (basic_key w) = 32%nat
        ∧ String.length (basic_user w) = 16%nat
        ∧ Basic.validateApiKey req1 w'
          = (Ok (Basic.Next req1 (VStr (basic_user w))), w').
Proof.
  intros Hs Hfile Hk.
  assert (Hrun : ∃ w', Basic.post_api_keys w
            = (Ok (Json 200 (Object {[ "apiKey" := VStr (basic_key w);
                                       "userId" := VStr (basic_user w) ]})),
               w')).
  { rewrite basic_post_api_keys_run. cbv zeta. rewrite Hs.
    destruct (fs w !! API_KEYS_FILE) as [[data|c]|] eqn:Hf;
      [|by destruct (Hfile c)|]; by eexists. }
  destruct Hrun as [w' Hrun]. exists w'. split; [done|].
  destruct (basic_post_api_keys_ok _ _ _ Hrun) as (_ & apiKeys0 & Hs0 & Hs').
  assert (apiKeys0 = apiKeys) as -> by congruence.
  split; [done|]. split; [apply basic_key_length|].
  split; [unfold basic_user; by rewrite hex_length, length_fmap, length_seq|].
  rewrite basic_validateApiKey_run, Hk.
  rewrite truthy_VStr by apply basic_key_not_empty. cbn [negb].
  rewrite Hs'. unfold index. rewrite lookup_insert_eq. cbn [props_of].
  rewrite lookup_insert_eq. cbn [from_option id].
  by rewrite (lookup_chain_own _ _ "userId" (VStr (basic_user w))).
Qed.

(** X15. A key of the first version never expires under the later gate.
    The record that [POST /api/keys] of [server.js] stores has neither
    [revoked] nor [expiresAt]; in any world whose key store holds that
    record under the key, [validateApiKey] of the later version lets the
    key pass for its user whatever the clock reads, provided no request
    has put [revoked] or [expiresAt] on [Object.prototype]. *)
Theorem basic_key_never_expires (req1 : request) (w w' w2 : World)
    (b : payload) (apiKeys' apiKeys2 : document) :
  Basic.post_api_keys w = (Ok (Json 200 b), w') →
  store w' API_KEYS_FILE = Ok apiKeys' →
  store w2 API_KEYS_FILE = Ok apiKeys2 →
  apiKeys2 !! basic_key w = apiKeys' !! basic_key w →
  prototype w2 !! "revoked" = None → prototype w2 !! "expiresAt" = None →
  x_api_key req1 = Some (basic_key w) →
  (validateApiKey req1 w2).1
  = Ok (Next {| req := req1; userId := VStr (basic_user w);
                apiKey := basic_key w |}).
Proof.
  intros Hrun Hs' Hs2 Hr2 Hrev Hexp Hk.
  destruct (basic_post_api_keys_ok _ _ _ Hrun) as (_ & apiKeys & _ & Hs0).
  assert (apiKeys' = <[basic_key w := basic_record w]> apiKeys) as ->
    by congruence.
  rewrite lookup_insert_eq in Hr2.
  destruct (validateApiKey_passes req1 w2 (basic_key w) apiKeys2
              (basic_record w) Hk (basic_key_not_empty w) Hs2 Hr2)
    as [Hgate _].
  - unfold lookup_chain, basic_record. rewrite Hrev. by simplify_map_eq.
  - unfold lookup_chain, basic_record. rewrite Hexp. by simplify_map_eq.
  - rewrite Hgate. cbn [fst].
    by rewrite (lookup_chain_own _ _ "userId" (VStr (basic_user w))).
Qed.

(** X16. The first version's [POST /api/shorten] for a stored key and a
    URL that parses answers 200 with the short URL, [GET] on its
    identifier right after redirects to the URL, and the key store is
    left as it was: this version keeps no [lastUsed]. *)
Theorem basic_shorten_then_resolve (req0 : request) (w : World)
    (k u : string) (apiKeys urls : document) (r : obj) :
  x_api_key req0 = Some k → k ≠ "" →
  store w API_KEYS_FILE = Ok apiKeys → apiKeys !! k = Some r →
  body req0 !! "url" = Some (VStr u) → u ≠ "" → isValidUrl (VStr u) = true →
  store w URLS_FILE = Ok urls →
  (∀ c, fs w !! URLS_FILE ≠ Some (Fault c)) →
  let id := hex (entropy w <$> seq (drawn w) 4) in
  let w' := (Basic.post_api_shorten req0 w).2 in
  (Basic.post_api_shorten req0 w).1
  = Ok (Json 200 (Object
          {[ "shortUrl" := VStr (protocol req0 +:+ "://"
                                 +:+ ToString (host req0) +:+ "/" +:+ id);
             "originalUrl" := VStr u ]}))
  ∧ get_shortUrl id w' = (Ok (Redirect (VStr u)), w')
  ∧ store w' API_KEYS_FILE = Ok apiKeys.
Proof.
  intros Hk Hne Hs Hr Hu Hune Hv Hurls Hfile. cbv zeta.
  unfold Basic.post_api_shorten.
  rewrite bind_run, basic_validateApiKey_run, Hk, truthy_VStr by done.
  cbn [negb]. rewrite Hs. unfold index. rewrite Hr. cbn [props_of].
  rewrite Hr. cbn [from_option id].
  rewrite (basic_shorten_same _ _ k), shorten_run. cbv zeta. cbn [req userId].
  rewrite (lookup_chain_own _ _ _ _ Hu), Hv, truthy_VStr by done.
  cbn [negb orb]. rewrite Hurls.
  assert (Hstored : ∀ w0 record,
            record !! "originalUrl" = Some (VStr u) →
            let w' := set_fs (<[URLS_FILE :=
                         File (JSON_stringify
                                 (<[hex (entropy w <$> seq (drawn w) 4)
                                    := record]> urls))]> (fs w)) w0 in
            get_shortUrl (hex (entropy w <$> seq (drawn w) 4)) w'
            = (Ok (Redirect (VStr u)), w')
            ∧ store w' API_KEYS_FILE = Ok apiKeys).
  { intros w0 record Hrec. cbv zeta. split.
    - eapply (get_shortUrl_stored _ (jsonify_obj record));
        [|apply lookup_insert_eq|by apply jsonify_obj_lookup].
      rewrite store_eq. autorewrite with world.
      rewrite lookup_insert_eq, JSON_parse_stringify, jsonify_insert.
      by rewrite (store_defined _ _ _ Hurls).
    - by rewrite store_insert_ne. }
  destruct (fs w !! URLS_FILE) as [[data|c]|] eqn:Hf;
    [|by destruct (Hfile c)|]; cbn [fst snd]; (split; [done|]);
    by apply Hstored.
Qed.
End Basic_facts.

(** The first version's gate lets [k1] pass for its user. *)
Lemma basic_validateApiKey_reads_witness :
  (Basic.validateApiKey (a_request (Some "k1") ∅) (with_key counting)).1
  = Ok (Basic.Next (a_request (Some "k1") ∅)
          (lookup_chain (prototype (with_key counting)) a_key "userId")).
Proof.
  refine (proj2 (proj2 (proj2 (proj2
            (basic_validateApiKey_reads (a_request (Some "k1") ∅)
               (with_key counting))) "k1" _ _) {[ "k1" := a_key ]} _)
            a_key _);
    by_computation.
Defined.

(** The first key of the first version passes its gate. *)
Lemma basic_create_then_validate_witness :
  let req1 := a_request (Some (basic_key fresh)) ∅ in
  ∃ w' : @World reference,
    Basic.post_api_keys fresh
        = (Ok (Json 200 (Object {[ "apiKey" := VStr (basic_key fresh);
                                   "userId" := VStr (basic_user fresh) ]})),
           w')
        ∧ store w' API_KEYS_FILE
          = Ok (<[basic_key fresh :=
                    {[ "userId" := VStr (basic_user fresh);
                       "createdAt" :=
                         VStr (@toISOString reference
                                 (clock fresh (ticks fresh))) ]}]>
                  ∅)
        ∧ String.length (basic_key fresh) = 32%nat
        ∧ String.length (basic_user fresh) = 16%nat
        ∧ Basic.validateApiKey req1 w'
          = (Ok (Basic.Next req1 (VStr (basic_user fresh))), w').
Proof.
  intros req1.
  refine (basic_create_then_validate req1 fresh ∅ _ _ _).
  - by_computation.
  - intros c E. discriminate E.
  - reflexivity.
Defined.

(** A key of the first version passes the later gate in the year 2100. *)
Lemma basic_key_never_expires_witness :
  let w' := (Basic.post_api_keys fresh).2 in
  let w2 := a_world (fs w') (λ _, 4102444800000) counting in
  let req1 := a_request (Some (basic_key fresh)) ∅ in
  (validateApiKey req1 w2).1
  = Ok (Next {| req := req1; userId := VStr (basic_user fresh);
                apiKey := basic_key fresh |}).
Proof.
  intros w' w2 req1.
  refine (basic_key_never_expires req1 fresh w' w2
            (answer (Basic.post_api_keys fresh))
            (document_of (store w' API_KEYS_FILE))
            (document_of (store w' API_KEYS_FILE)) _ _ _ _ _ _ _).
  - apply pair_eq; [by_computation|reflexivity].
  - by_computation.
  - by_computation.
  - reflexivity.
  - by_computation.
  - by_computation.
  - reflexivity.
Defined.

(** The first version shortens ["https://example.com/x"] with [k1] and
    resolves it. *)
Lemma basic_shorten_then_resolve_witness :
  let w := with_key counting in
  let asks := asks_to_shorten "https://example.com/x" in
  let id := hex (entropy w <$> seq (drawn w) 4) in
  let w' := (Basic.post_api_shorten asks w).2 in
  (Basic.post_api_shorten asks w).1
  = Ok (Json 200 (Object
          {[ "shortUrl" := VStr (protocol asks +:+ "://"
                                 +:+ ToString (host asks) +:+ "/" +:+ id);
             "originalUrl" := VStr "https://example.com/x" ]}))
  ∧ get_shortUrl id w' = (Ok (Redirect (VStr "https://example.com/x")), w')
  ∧ store w' API_KEYS_FILE = Ok {[ "k1" := a_key ]}.
Proof.
  intros w asks.
  refine (basic_shorten_then_resolve asks w "k1" "https://example.com/x"
            {[ "k1" := a_key ]} ∅ a_key _ _ _ _ _ _ _ _ _).
  1-8: by_computation.
  intros c E. discriminate E.
Defined.

(** ** What a short link keeps *)

Section Links.
Context `{Runtime}.

Lemma store_same_file (w w' : World) (p : string) :
  fs w' !! p = fs w !! p → store w' p = store w p.
Proof. intros Hfs. by rewrite !store_eq, Hfs. Qed.

Lemma key_routes_leave_urls (op : operation) (w : World) :
  (∀ req0, op ≠ Shorten req0) →
  fs (perform op w) !! URLS_FILE = fs w !! URLS_FILE.
Proof.
  intros Hop. destruct op as [req0|u|j|j req0|req0|req0|s]; cbn [perform].
  - rewrite post_api_keys_run. cbv zeta.
    assert (Hfs : fs (after_userId req0 w) = fs w)
      by (unfold after_userId; by destruct (truthy _)).
    destruct (store w API_KEYS_FILE); [|cbn [snd]; by rewrite Hfs].
    case_bool_decide; [cbn [snd]; by rewrite Hfs|].
    destruct (fs w !! API_KEYS_FILE) as [[data|c]|]; cbn [snd];
      autorewrite with world; by rewrite ?Hfs, ?lookup_insert_ne.
  - by rewrite get_api_keys_run.
  - rewrite delete_api_keys_run.
    destruct (store w API_KEYS_FILE) as [d|e]; [|done].
    destruct (index _ d j); [|done]. cbv zeta.
    destruct (fs w !! API_KEYS_FILE) as [[data|c]|]; cbn [snd];
      autorewrite with world; by rewrite ?lookup_insert_ne.
  - rewrite patch_api_keys_run.
    destruct (store w API_KEYS_FILE) as [d|e]; [|done].
    destruct (index _ d j); [|done]. cbv zeta.
    destruct (fs w !! API_KEYS_FILE) as [[data|c]|]; cbn [snd];
      autorewrite with world; by rewrite ?lookup_insert_ne.
  - destruct (validateApiKey_frame req0 w) as (g & w1 & -> & _ & _ & Hf & _).
    done.
  - by destruct (Hop req0).
  - by rewrite get_shortUrl_run.
Qed.

(** X20. A short link is for good. Whatever the operation, a record of
    the URL store is in the URL store after it, unchanged, and its
    identifier still resolves to its [originalUrl]; only [POST
    /api/shorten] writes the URL store, and the one exception is a
    shortening that draws the very identifier of the record, which
    replaces the record. *)
Theorem url_records_stay (op : operation) (w : World) (id : string)
    (urls : document) (record : obj) :
  store w URLS_FILE = Ok urls → urls !! id = Some record →
  (∀ req0, op = Shorten req0 → hex (entropy w <$> seq (drawn w) 4) ≠ id) →
  (∃ urls', store (perform op w) URLS_FILE = Ok urls'
            ∧ urls' !! id = Some record)
  ∧ (∀ v, record !! "originalUrl" = Some v →
       get_shortUrl id (perform op w) = (Ok (Redirect v), perform op w))
  ∧ ((∀ req0, op ≠ Shorten req0) →
     fs (perform op w) !! URLS_FILE = fs w !! URLS_FILE).
Proof.
  intros Hs Hr Hfresh.
  assert (Hstay : ∃ urls', store (perform op w) URLS_FILE = Ok urls'
                           ∧ urls' !! id = Some record).
  { assert (Hother : (∀ req0, op ≠ Shorten req0) →
              ∃ urls', store (perform op w) URLS_FILE = Ok urls'
                       ∧ urls' !! id = Some record).
    { intros Hop. exists urls. split; [|done].
      rewrite (store_same_file w); [done|].
      by apply key_routes_leave_urls. }
    destruct op as [req0|u|j|j req0|req0|req0|s];
      try (by apply Hother; intros ?).
    cbn [perform]. unfold post_api_shorten. rewrite bind_run.
    destruct (validateApiKey_frame req0 w)
      as (g & w1 & -> & Hd & He & Hf & Hg).
    pose proof (store_same_file w w1 URLS_FILE Hf) as Hs1.
    rewrite Hs in Hs1.
    destruct g as [resp|a]; [by exists urls|].
    rewrite shorten_run. cbv zeta. rewrite Hs1, Hd, He.
    destruct (_ || _); [by exists urls|].
    destruct (store_record_file _ _ _ _ _ Hs1 Hr) as [data Hfile].
    rewrite Hfile. cbn [snd]. eexists. split.
    - rewrite store_eq. autorewrite with world.
      rewrite lookup_insert_eq, JSON_parse_stringify, jsonify_insert.
      by rewrite (store_defined _ _ _ Hs1).
    - by rewrite lookup_insert_ne by by apply (Hfresh req0). }
  split; [done|]. split; [|apply key_routes_leave_urls].
  intros v Hv. destruct Hstay as (urls' & Hs' & Hr').
  by eapply get_shortUrl_stored.
Qed.
End Links.

(** A short link outlives the revocation of the key it was made with. *)
Lemma url_records_stay_witness :
  let w := (post_api_shorten (asks_to_shorten "https://example.com/x")
                             (with_key counting)).2 in
  let w' := perform (Revoke "k1") w in
  get_shortUrl "00010203" w'
  = (Ok (Redirect (VStr "https://example.com/x")), w').
Proof.
  intros w w'.
  refine (proj1 (proj2
            (url_records_stay (Revoke "k1") w "00010203"
               (document_of (store w URLS_FILE))
               (default ∅ (document_of (store w URLS_FILE) !! "00010203"))
               _ _ _))
            (VStr "https://example.com/x") _).
  1-2: by_computation.
  - intros req0 E. discriminate E.
  - by_computation.
Defined.

(** ** What [isValidUrl] accepts *)

Section URL_facts.
Context `{Runtime}.

Lemma drop_leading_sub (P : ascii → bool) (l : list ascii) (c : ascii) :
  c ∈ URL.drop_leading P l → c ∈ l.
Proof.
  induction l as [|x l IH]; [done|]. cbn [URL.drop_leading].
  destruct (P x); [|done]. intros Hc. right. by apply IH.
Qed.

Lemma clean_sub (l : list ascii) (c : ascii) : c ∈ URL.clean l → c ∈ l.
Proof.
  unfold URL.clean. intros Hc.
  apply list_elem_of_In, filter_In in Hc as [Hc _].
  apply list_elem_of_In in Hc. rewrite elem_of_reverse in Hc.
  apply drop_leading_sub in Hc. rewrite elem_of_reverse in Hc.
  by apply drop_leading_sub in Hc.
Qed.

Lemma scheme_state_colon (buffer l : list ascii)
    (x : list ascii * list ascii) :
  URL.scheme_state buffer l = Some x → ":"%char ∈ l.
Proof.
  revert buffer. induction l as [|c l IH]; intros buffer; [done|].
  cbn [URL.scheme_state]. destruct (_ || _).
  - intros Hx. right. by eapply IH.
  - destruct (Ascii.eqb_spec c ":") as [->|]; [|done]. intros _. left.
Qed.

(** X17. [isValidUrl] refuses every value whose string has no colon:
    without a base URL, a URL needs a scheme, and a scheme ends in a
    colon. *)
Theorem isValidUrl_needs_colon (v : jsval) :
  ":"%char ∉ list_ascii_of_string (ToString v) → isValidUrl v = false.
Proof.
  intros Hcolon. unfold isValidUrl, URL.parse.
  destruct (URL.clean _) as [|c l] eqn:Hclean; [done|].
  destruct (URL.is_alpha c); [|done].
  destruct (URL.scheme_state _ l) as [x|] eqn:Hscheme; [|done].
  destruct Hcolon. apply clean_sub. rewrite Hclean. right.
  by eapply scheme_state_colon.
Qed.
End URL_facts.

Lemma isValidUrl_needs_colon_witness :
  isValidUrl (H := reference) (VStr "www.example.com/path") = false.
Proof.
  apply isValidUrl_needs_colon. by_computation.
Defined.

Section URL_space.
Context `{Runtime}.

Lemma drop_leading_all (P : ascii → bool) (l m : list ascii) :
  forallb P l = true → URL.drop_leading P (l ++ m) = URL.drop_leading P m.
Proof.
  induction l as [|x l IH]; [done|]. cbn [forallb app URL.drop_leading].
  destruct (P x); [|done]. exact IH.
Qed.

Lemma drop_leading_nil (P : ascii → bool) (l : list ascii) :
  forallb P l = true → URL.drop_leading P l = [].
Proof.
  intros Hl. rewrite <- (app_nil_r l). by rewrite drop_leading_all.
Qed.

Lemma drop_leading_some (P : ascii → bool) (l m : list ascii) :
  forallb P l = false →
  URL.drop_leading P (l ++ m) = (URL.drop_leading P l ++ m)%list.
Proof.
  induction l as [|x l IH]; [done|]. cbn [forallb app URL.drop_leading].
  destruct (P x); [|done]. exact IH.
Qed.

Lemma list_ascii_of_string_app (s t : string) :
  list_ascii_of_string (s +:+ t)
  = (list_ascii_of_string s ++ list_ascii_of_string t)%list.
Proof.
  induction s as [|c s IH]; [done|].
  change (String c s +:+ t) with (String c (s +:+ t)).
  cbn [list_ascii_of_string]. by rewrite IH.
Qed.

Lemma tab_or_newline_space (c : ascii) :
  URL.is_tab_or_newline c = true → URL.is_C0_control_or_space c = true.
Proof.
  unfold URL.is_tab_or_newline, URL.is_C0_control_or_space, URL.in_range.
  intros Hc. apply bool_decide_eq_true_1 in Hc. cbv zeta.
  repeat (apply elem_of_cons in Hc as [->|Hc]; [done|]).
  by apply elem_of_nil in Hc.
Qed.

Lemma clean_leading (c : ascii) (l : list ascii) :
  URL.is_C0_control_or_space c = true → URL.clean (c :: l) = URL.clean l.
Proof. intros Hc. unfold URL.clean. cbn [URL.drop_leading]. by rewrite Hc. Qed.

Lemma clean_trailing (c : ascii) (l : list ascii) :
  URL.is_C0_control_or_space c = true → URL.clean (l ++ [c]) = URL.clean l.
Proof.
  intros Hc. unfold URL.clean.
  destruct (forallb URL.is_C0_control_or_space l) eqn:Hl.
  - rewrite drop_leading_all, (drop_leading_nil _ l) by done.
    cbn [URL.drop_leading]. by rewrite Hc.
  - rewrite drop_leading_some by done. rewrite reverse_app.
    cbn [reverse rev_append app URL.drop_leading]. by rewrite Hc.
Qed.

Lemma clean_inner (c : ascii) (l1 l2 : list ascii) :
  URL.is_tab_or_newline c = true →
  URL.clean (l1 ++ c :: l2) = URL.clean (l1 ++ l2).
Proof.
  intros Ht. pose proof (tab_or_newline_space c Ht) as Hc. unfold URL.clean.
  set (P := URL.is_C0_control_or_space) in *.
  destruct (forallb P l1) eqn:Hl1.
  { rewrite (drop_leading_all P l1 (c :: l2)), (drop_leading_all P l1 l2)
      by done.
    cbn [URL.drop_leading]. by rewrite Hc. }
  rewrite (drop_leading_some P l1 (c :: l2)), (drop_leading_some P l1 l2)
    by done.
  set (m1 := URL.drop_leading P l1).
  rewrite !reverse_app, reverse_cons, <- !app_assoc.
  destruct (forallb P (reverse l2)) eqn:Hl2.
  { rewrite (drop_leading_all P (reverse l2) ([c] ++ reverse m1)),
      (drop_leading_all P (reverse l2) (reverse m1)) by done.
    cbn [app URL.drop_leading]. by rewrite Hc. }
  rewrite (drop_leading_some P (reverse l2) ([c] ++ reverse m1)),
    (drop_leading_some P (reverse l2) (reverse m1)) by done.
  rewrite !reverse_app, !reverse_involutive, <- !app_assoc.
  rewrite !List.filter_app. cbn [reverse rev_append app List.filter].
  by rewrite Ht.
Qed.

(** X18. [isValidUrl] does not see white space around the URL nor tabs
    and newlines inside it: a space or control character in front of the
    string or behind it, and a tab, line feed or carriage return anywhere
    in it, leave the verdict as it is. The handler stores the string as it
    came. *)
Theorem isValidUrl_ignores_space (c : ascii) (s s' : string) :
  (URL.is_C0_control_or_space c = true →
   isValidUrl (VStr (String c s)) = isValidUrl (VStr s)
   ∧ isValidUrl (VStr (s +:+ String c "")) = isValidUrl (VStr s))
  ∧ (URL.is_tab_or_newline c = true →
     isValidUrl (VStr (s +:+ String c s')) = isValidUrl (VStr (s +:+ s'))).
Proof.
  unfold isValidUrl, URL.parse. cbn [ToString]. split.
  - intros Hc. split.
    + cbn [list_ascii_of_string]. by rewrite clean_leading.
    + rewrite list_ascii_of_string_app. cbn [list_ascii_of_string].
      by rewrite clean_trailing.
  - intros Hc. rewrite !list_ascii_of_string_app. cbn [list_ascii_of_string].
    by rewrite clean_inner.
Qed.
End URL_space.

Lemma isValidUrl_ignores_space_witness :
  isValidUrl (H := reference) (VStr " https://example.com/x")
  = isValidUrl (H := reference) (VStr "https://example.com/x").
Proof.
  refine (proj1 (proj1 (isValidUrl_ignores_space " " "https://example.com/x" "") _)).
  by_computation.
Defined.

Section URL_host.
Context `{Runtime}.

Lemma parse_host_cons (c : ascii) (l : list ascii) (isOpaque : bool) :
  URL.parse_host (c :: l) isOpaque =
  if (c =? "[")%char then
    match last (c :: l) with
    | Some "]"%char =>
        let literal := string_of_list_ascii (removelast l) in
        if ipv6_parse literal then Some (URL.IPv6 literal) else None
    | _ => None
    end
  else if isOpaque then URL.parse_opaque_host (c :: l)
  else
    asciiDomain ← URL.domain_to_ASCII (URL.percent_decode (c :: l));
    if URL.ends_in_a_number asciiDomain
    then URL.IPv4 <$> URL.parse_IPv4 asciiDomain
    else Some (URL.Domain (string_of_list_ascii asciiDomain)).
Proof. by destruct c as [[] [] [] [] [] [] [] []]. Qed.

Lemma domain_to_ASCII_not_empty (domain result : list ascii) :
  URL.domain_to_ASCII domain = Some result → result ≠ [].
Proof.
  unfold URL.domain_to_ASCII.
  destruct (if _ : bool then _ else _) as [r|]; [|done]. cbn.
  case_bool_decide as Hr; [done|]. cbn. destruct (existsb _ _); [done|].
  by intros [= <-].
Qed.

Lemma domain_host_proper (l : list ascii) (h : URL.host) :
  (asciiDomain ← URL.domain_to_ASCII (URL.percent_decode l);
   if URL.ends_in_a_number asciiDomain
   then URL.IPv4 <$> URL.parse_IPv4 asciiDomain
   else Some (URL.Domain (string_of_list_ascii asciiDomain))) = Some h →
  proper_host h.
Proof.
  destruct (URL.domain_to_ASCII _) as [r|] eqn:Hr; [|done]. cbn.
  apply domain_to_ASCII_not_empty in Hr.
  destruct (URL.ends_in_a_number r).
  - destruct (URL.parse_IPv4 r); [|done]. by intros [= <-].
  - intros [= <-]. by destruct r.
Qed.

Lemma parse_host_proper (l : list ascii) (h : URL.host) :
  URL.parse_host l false = Some h → proper_host h.
Proof.
  destruct l as [|c l]; [apply (domain_host_proper [])|].
  rewrite parse_host_cons. destruct (c =? "[")%char.
  - destruct (last (c :: l)) as [[[] [] [] [] [] [] [] []]|]; try done.
    cbv zeta. destruct (ipv6_parse _); [|done]. by intros [= <-].
  - apply domain_host_proper.
Qed.

Lemma host_state_proper (insideBrackets : bool) (buffer l : list ascii)
    (h : URL.host) :
  URL.host_state true insideBrackets buffer l = Some h → proper_host h.
Proof.
  revert insideBrackets buffer.
  induction l as [|c l IH]; intros insideBrackets buffer;
    cbn [URL.host_state negb].
  - destruct (_ && _); [done|]. apply parse_host_proper.
  - destruct (_ && _); [|apply IH].
    case_bool_decide; [done|].
    destruct (URL.parse_host buffer false) as [h'|] eqn:Hh; [|done]. cbn.
    destruct (URL.port_state l); [|done]. intros [= <-].
    by eapply parse_host_proper.
Qed.

(** X19. A URL of a special scheme other than [file] ([http], [https],
    [ws], [wss], [ftp]) is accepted only with a host: whenever
    [new URL(input)] does not throw and the scheme is one of these, the
    host is a domain that is not empty or an IPv4 or IPv6 address. *)
Theorem special_scheme_has_host (input : string) (r : URL.record) :
  URL.parse input = Some r →
  URL.scheme r ∈ ["ftp"; "http"; "https"; "ws"; "wss"] →
  ∃ h, URL.url_host r = Some h ∧ proper_host h.
Proof.
  unfold URL.parse. destruct (URL.clean _) as [|c l]; [done|].
  destruct (URL.is_alpha c); [|done].
  destruct (URL.scheme_state _ l) as [[buffer rest]|]; [|done]. cbn.
  unfold URL.after_scheme. cbv zeta.
  set (scheme := string_of_list_ascii buffer).
  case_bool_decide as Hfile.
  { destruct (URL.file_state rest); [|done]. intros [= <-]. cbn.
    rewrite Hfile. intros Hin. exfalso.
    exact (bool_decide_eq_false_1
             ("file" ∈ ["ftp"; "http"; "https"; "ws"; "wss"]) eq_refl Hin). }
  destruct (URL.is_special scheme) eqn:Hspecial.
  - destruct (URL.authority_state _ _ _ _) as [b|]; [|done]. cbn.
    destruct (URL.host_state true false [] b) as [h|] eqn:Hh; [|done].
    intros [= <-] _. exists h. split; [done|]. by eapply host_state_proper.
  - assert (Hnot : scheme ∉ ["ftp"; "http"; "https"; "ws"; "wss"]).
    { intros Hin. unfold URL.is_special in Hspecial.
      apply bool_decide_eq_false_1 in Hspecial. apply Hspecial.
      unfold URL.special_schemes.
      repeat (apply elem_of_cons in Hin as [->|Hin]; [by_computation|]).
      by apply elem_of_nil in Hin. }
    destruct rest as [|c1 [|c2 rest']].
    + by intros [= <-].
    + destruct c1 as [[] [] [] [] [] [] [] []]; by intros [= <-].
    + destruct c1 as [[] [] [] [] [] [] [] []];
        try (by intros [= <-]);
        destruct c2 as [[] [] [] [] [] [] [] []];
        try (by intros [= <-]);
        destruct (URL.authority_state _ _ _ _); try done; cbn;
        destruct (URL.host_state _ _ _ _); try done; by intros [= <-].
Qed.
End URL_host.

(** ["https://example.com/x"] has the host [example.com]. *)
Lemma special_scheme_has_host_witness :
  ∃ h, URL.url_host {| URL.scheme := "https";
                       URL.url_host := Some (URL.Domain "example.com") |}
       = Some h
       ∧ proper_host h.
Proof.
  refine (special_scheme_has_host (H := reference) "https://example.com/x"
            {| URL.scheme := "https";
               URL.url_host := Some (URL.Domain "example.com") |} _ _).
  - vm_compute. reflexivity.
  - by_computation.
Defined.
